(** * react-native-vosk: the iOS recognition session (ios/Vosk.swift)

    A shallow embedding of the [Vosk] native module and of the JavaScript
    wrapper in front of it.  The stored properties of the Swift class are a
    record; every method is a function on the world the object lives in:
    the object itself, the two dispatch queues it uses (the main queue and
    the serial [processingQueue]), the scheduled timers, the blocks
    submitted with [asyncAfter], the log of events handed to [sendEvent]
    and the set of recognizers already given to [vosk_recognizer_free].

    Platform calls whose outcome the module cannot decide (does
    [setCategory] throw, is the microphone granted, what does the decoder
    answer) are inputs of the functions or labels of the transition
    system.

    The file gives the data, the methods, the transition system and the
    statements first, then the lemmas about each block and the invariants
    of the runs, then the claims C1 to C10 in order, then further
    properties of the methods, X1 to X10. *)

From Stdlib Require Import List String ZArith Bool Lia.
Import ListNotations.
Local Open Scope Z_scope.

(** ** Data *)

(** [struct VoskResult]: both fields are optional in the JSON. *)
Record VoskResult := mkVoskResult {
  partial : option string;
  text : option string
}.

(** [struct VoskStartOptions]. *)
Record VoskStartOptions := mkVoskStartOptions {
  grammar : option (list string);
  timeout : option Z
}.

(** The [rawOptions] dictionary, read through [JSONDecoder]: it either
    decodes to the options or the decoding throws. *)
Inductive RawOptions :=
| optionsJSON (o : VoskStartOptions)
| optionsMalformed.

(** The text returned by the decoder, read through
    [JSONDecoder().decode(VoskResult.self, ...)]: it either decodes to a
    [VoskResult] or the decoding throws. *)
Inductive ResultJSON :=
| resultJSON (r : VoskResult)
| resultMalformed (raw : string).

Definition decodeVoskResult (j : ResultJSON) : option VoskResult :=
  match j with
  | resultJSON r => Some r
  | resultMalformed _ => None
  end.

(** [VoskModel] is declared outside this file; only its [model] pointer is
    used here. *)
Record VoskModel := mkVoskModel { model : nat }.

(** What [vosk_recognizer_new] / [vosk_recognizer_new_grm] were given, and
    the object they returned.  The objects are numbered in the order of
    their creation, so that one that was freed is never taken for a later
    one. *)
Record Recognizer := mkRecognizer {
  address : nat;
  ofModel : nat;
  rate : Z;
  withGrammar : option (list string)
}.

Record AudioBuffer := mkAudioBuffer {
  int16ChannelData : option (list Z);
  frameLength : Z
}.

(** The tap installed on bus 0 of the input node. *)
Record Tap := mkTap {
  bufferSize : Z;
  tapSampleRate : Z;
  tapChannels : Z
}.

Inductive EventName :=
| onError | onResult | onFinalResult | onPartialResult | onTimeout.

Definition Event : Type := EventName * string.

Definition supportedEvents : list EventName :=
  [onError; onResult; onFinalResult; onPartialResult; onTimeout].

Definition EventName_eqb (a b : EventName) : bool :=
  match a, b with
  | onError, onError | onResult, onResult | onFinalResult, onFinalResult
  | onPartialResult, onPartialResult | onTimeout, onTimeout => true
  | _, _ => false
  end.

(** How a promise handed to a method was settled. *)
Inductive Value := VTrue | VString (s : string) | VUndefined.

Inductive Settled :=
| resolve (v : Value)
| reject (code message : string).

(** The stored properties of [class Vosk], with the two facts about the
    audio objects the class reads back: the tap on the input node and
    [audioEngine.isRunning]. *)
Record Vosk := mkVosk {
  currentModel : option VoskModel;
  recognizer : option Recognizer;
  lastRecognizedResult : option VoskResult;
  timeoutTimer : option nat;
  hasListener : bool;
  isCleaningUp : bool;
  inputTap : option Tap;
  isRunning : bool
}.

(** Blocks submitted to the main queue. *)
Inductive MainBlock :=
| deliverResult (result : option ResultJSON) (completed : bool)
| scheduleTimer (timeout : Z)
| releaseRecognizer.

(** Blocks submitted to [processingQueue]. *)
Inductive ProcessingBlock :=
| recognize (buffer : AudioBuffer)
| timeoutStop.

Record World := mkWorld {
  vosk : Vosk;
  events : list Event;              (* calls of sendEvent, oldest first *)
  mainQueue : list MainBlock;
  processingQueue : list ProcessingBlock;
  decoding : option (Recognizer * AudioBuffer);
                                    (* the waveform call in progress *)
  timers : list (nat * Z);          (* valid timers: identity, fire date *)
  delayed : list (Z * MainBlock);   (* asyncAfter: deadline, block *)
  permissionRequests : nat;         (* requestRecordPermission pending *)
  freed : list nat;                 (* addresses given to vosk_recognizer_free *)
  allocated : nat;                  (* next recognizer address *)
  timerCount : nat;                 (* next timer identity *)
  now : Z                           (* clock, in milliseconds *)
}.

(** Field updates. *)
Definition set_currentModel (m : option VoskModel) (v : Vosk) : Vosk :=
  mkVosk m (recognizer v) (lastRecognizedResult v) (timeoutTimer v)
         (hasListener v) (isCleaningUp v) (inputTap v) (isRunning v).
Definition set_recognizer (r : option Recognizer) (v : Vosk) : Vosk :=
  mkVosk (currentModel v) r (lastRecognizedResult v) (timeoutTimer v)
         (hasListener v) (isCleaningUp v) (inputTap v) (isRunning v).
Definition set_lastRecognizedResult (r : option VoskResult) (v : Vosk) : Vosk :=
  mkVosk (currentModel v) (recognizer v) r (timeoutTimer v)
         (hasListener v) (isCleaningUp v) (inputTap v) (isRunning v).
Definition set_timeoutTimer (t : option nat) (v : Vosk) : Vosk :=
  mkVosk (currentModel v) (recognizer v) (lastRecognizedResult v) t
         (hasListener v) (isCleaningUp v) (inputTap v) (isRunning v).
Definition set_hasListener (b : bool) (v : Vosk) : Vosk :=
  mkVosk (currentModel v) (recognizer v) (lastRecognizedResult v)
         (timeoutTimer v) b (isCleaningUp v) (inputTap v) (isRunning v).
Definition set_isCleaningUp (b : bool) (v : Vosk) : Vosk :=
  mkVosk (currentModel v) (recognizer v) (lastRecognizedResult v)
         (timeoutTimer v) (hasListener v) b (inputTap v) (isRunning v).
Definition set_inputTap (t : option Tap) (v : Vosk) : Vosk :=
  mkVosk (currentModel v) (recognizer v) (lastRecognizedResult v)
         (timeoutTimer v) (hasListener v) (isCleaningUp v) t (isRunning v).
Definition set_isRunning (b : bool) (v : Vosk) : Vosk :=
  mkVosk (currentModel v) (recognizer v) (lastRecognizedResult v)
         (timeoutTimer v) (hasListener v) (isCleaningUp v) (inputTap v) b.

Definition on_vosk (f : Vosk -> Vosk) (w : World) : World :=
  mkWorld (f (vosk w)) (events w) (mainQueue w) (processingQueue w)
          (decoding w) (timers w) (delayed w) (permissionRequests w)
          (freed w) (allocated w) (timerCount w) (now w).
Definition set_events (e : list Event) (w : World) : World :=
  mkWorld (vosk w) e (mainQueue w) (processingQueue w)
          (decoding w) (timers w) (delayed w) (permissionRequests w)
          (freed w) (allocated w) (timerCount w) (now w).
Definition set_mainQueue (q : list MainBlock) (w : World) : World :=
  mkWorld (vosk w) (events w) q (processingQueue w)
          (decoding w) (timers w) (delayed w) (permissionRequests w)
          (freed w) (allocated w) (timerCount w) (now w).
Definition set_processingQueue (q : list ProcessingBlock) (w : World) : World :=
  mkWorld (vosk w) (events w) (mainQueue w) q
          (decoding w) (timers w) (delayed w) (permissionRequests w)
          (freed w) (allocated w) (timerCount w) (now w).
Definition set_decoding (d : option (Recognizer * AudioBuffer)) (w : World) : World :=
  mkWorld (vosk w) (events w) (mainQueue w) (processingQueue w)
          d (timers w) (delayed w) (permissionRequests w)
          (freed w) (allocated w) (timerCount w) (now w).
Definition set_timers (t : list (nat * Z)) (w : World) : World :=
  mkWorld (vosk w) (events w) (mainQueue w) (processingQueue w)
          (decoding w) t (delayed w) (permissionRequests w)
          (freed w) (allocated w) (timerCount w) (now w).
Definition set_delayed (d : list (Z * MainBlock)) (w : World) : World :=
  mkWorld (vosk w) (events w) (mainQueue w) (processingQueue w)
          (decoding w) (timers w) d (permissionRequests w)
          (freed w) (allocated w) (timerCount w) (now w).
Definition set_permissionRequests (n : nat) (w : World) : World :=
  mkWorld (vosk w) (events w) (mainQueue w) (processingQueue w)
          (decoding w) (timers w) (delayed w) n
          (freed w) (allocated w) (timerCount w) (now w).
Definition set_freed (f : list nat) (w : World) : World :=
  mkWorld (vosk w) (events w) (mainQueue w) (processingQueue w)
          (decoding w) (timers w) (delayed w) (permissionRequests w)
          f (allocated w) (timerCount w) (now w).
Definition set_allocated (n : nat) (w : World) : World :=
  mkWorld (vosk w) (events w) (mainQueue w) (processingQueue w)
          (decoding w) (timers w) (delayed w) (permissionRequests w)
          (freed w) n (timerCount w) (now w).
Definition set_timerCount (n : nat) (w : World) : World :=
  mkWorld (vosk w) (events w) (mainQueue w) (processingQueue w)
          (decoding w) (timers w) (delayed w) (permissionRequests w)
          (freed w) (allocated w) n (now w).
Definition set_now (t : Z) (w : World) : World :=
  mkWorld (vosk w) (events w) (mainQueue w) (processingQueue w)
          (decoding w) (timers w) (delayed w) (permissionRequests w)
          (freed w) (allocated w) (timerCount w) t.

(** ** Primitive effects *)

(** [sendEvent(withName:body:)]. *)
Definition sendEvent (name : EventName) (body : string) (w : World) : World :=
  set_events (events w ++ [(name, body)]) w.

(** [DispatchQueue.main.async]. *)
Definition mainAsync (b : MainBlock) (w : World) : World :=
  set_mainQueue (mainQueue w ++ [b]) w.

(** [processingQueue.async]. *)
Definition processingAsync (b : ProcessingBlock) (w : World) : World :=
  set_processingQueue (processingQueue w ++ [b]) w.

(** [DispatchQueue.main.asyncAfter(deadline: .now() + delay)], the delay in
    milliseconds. *)
Definition mainAsyncAfter (delay : Z) (b : MainBlock) (w : World) : World :=
  set_delayed (delayed w ++ [(now w + delay, b)]) w.

(** [vosk_recognizer_free(recognizer); recognizer = nil], guarded by
    [recognizer != nil] as at each of its uses. *)
Definition freeRecognizer (w : World) : World :=
  match recognizer (vosk w) with
  | Some r => on_vosk (set_recognizer None) (set_freed (address r :: freed w) w)
  | None => w
  end.

(** [timeoutTimer?.invalidate()]: an invalidated timer leaves the run loop. *)
Definition invalidate (t : option nat) (w : World) : World :=
  match t with
  | Some i => set_timers (filter (fun p => negb (Nat.eqb (fst p) i)) (timers w)) w
  | None => w
  end.

Definition isEmpty (s : string) : bool :=
  match s with
  | EmptyString => true
  | String _ _ => false
  end.

(** ** The methods of [class Vosk] *)

Definition startObserving (w : World) : World :=
  on_vosk (set_hasListener true) w.

Definition stopObserving (w : World) : World :=
  on_vosk (set_hasListener false) w.

(** [loadModel(name:resolve:reject:)].  [VoskModel_init] stands for the
    initializer [VoskModel(name:)], declared outside this file: [None]
    when it throws. *)
Definition loadModel (VoskModel_init : string -> option VoskModel)
    (name : string) (w : World) : World * Settled :=
  let w := match currentModel (vosk w) with
           | Some _ => on_vosk (set_currentModel None) w
           | None => w
           end in
  match VoskModel_init name with
  | Some m => (on_vosk (set_currentModel (Some m)) w, resolve VTrue)
  | None => (w, reject "load_model" "Failed to load model")
  end.

(** What the audio subsystem and the decoder answer during one [start]:
    an error is given by its [localizedDescription]. *)
Record AudioSetup := mkAudioSetup {
  setCategory : option string;      (* the error thrown, if any *)
  setActive : option string;        (* the error thrown, if any *)
  inputSampleRate : option Z;       (* None: not finite *)
  inputChannelCount : Z;
  pcmFormat : bool;                 (* AVAudioFormat(...) is not nil *)
  encodeGrammar : option string;    (* the error JSONEncoder throws, if any *)
  recognizerNew : bool              (* vosk_recognizer_new(_grm) is not NULL *)
}.

(** The [catch] block of [start]. *)
Definition startCatch (description : string) (w : World) : World * Settled :=
  let w := if hasListener (vosk w)
           then sendEvent onError
                  ("Unable to start AVAudioEngine: " ++ description) w
           else w in
  let w := freeRecognizer w in
  (w, reject "start" description).

(** [start(rawOptions:resolve:reject:)]. *)
Definition start (rawOptions : option RawOptions) (env : AudioSetup)
    (w : World) : World * Settled :=
  match currentModel (vosk w) with
  | None => (w, reject "start" "No model loaded")
  | Some m =>
    let options := match rawOptions with
                   | Some (optionsJSON o) => Some o
                   | Some optionsMalformed => None
                   | None => None
                   end in
    let grammar' := match options with Some o => grammar o | None => None end in
    let timeout' := match options with Some o => timeout o | None => None end in
    match setCategory env with
    | Some e => startCatch e w
    | None =>
    match setActive env with
    | Some e => startCatch e w
    | None =>
      let sampleRate := match inputSampleRate env with
                        | Some r => if 0 <? r then r else 16000
                        | None => 16000
                        end in
      let channelCount := if 0 <? inputChannelCount env
                          then inputChannelCount env else 1 in
      if negb (pcmFormat env)
      then (w, reject "start" "Unable to create audio format")
      else
        let encoded :=
          match grammar' with
          | Some (p :: g) =>
              match encodeGrammar env with
              | Some e => inl e
              | None => inr (Some (p :: g))
              end
          | Some [] => inr None
          | None => inr None
          end in
        match encoded with
        | inl e => startCatch e w
        | inr g =>
          let created :=
            if recognizerNew env
            then Some (mkRecognizer (allocated w) (model m) sampleRate g)
            else None in
          let w := match created with
                   | Some _ => set_allocated (S (allocated w)) w
                   | None => w
                   end in
          let w := on_vosk (set_recognizer created) w in
          let w := on_vosk (set_inputTap
                     (Some (mkTap (sampleRate / 10) sampleRate channelCount))) w in
          let w := set_permissionRequests (S (permissionRequests w)) w in
          let w := match timeout' with
                   | Some t => mainAsync (scheduleTimer t) w
                   | None => w
                   end in
          (w, resolve (VString "Recognizer successfully started"))
        end
    end
    end
  end.

(** The completion handler of [requestRecordPermission]; [engineStarts]
    tells whether [audioEngine.start()] succeeds ([try?] drops its error). *)
Definition permissionAnswered (success engineStarts : bool) (w : World) : World :=
  let w := set_permissionRequests (pred (permissionRequests w)) w in
  if success
  then if engineStarts then on_vosk (set_isRunning true) w else w
  else w.

(** [stopInternal(withoutEvents:)]. *)
Definition stopInternal (withoutEvents : bool) (w : World) : World :=
  let w := on_vosk (set_inputTap None) w in
  let w :=
    if isRunning (vosk w) then
      let w := on_vosk (set_isRunning false) w in
      if hasListener (vosk w) && negb withoutEvents then
        match lastRecognizedResult (vosk w) with
        | Some last =>
            match partial last with
            | Some p => if negb (isEmpty p) then sendEvent onFinalResult p w else w
            | None => w
            end
        | None => w
        end
      else w
    else w in
  let w := on_vosk (set_lastRecognizedResult None) w in
  let w := invalidate (timeoutTimer (vosk w)) w in
  let w := on_vosk (set_timeoutTimer None) w in
  mainAsyncAfter 500 releaseRecognizer w.

Definition stop (w : World) : World :=
  let w := on_vosk (set_isCleaningUp true) w in
  let w := stopInternal false w in
  on_vosk (set_isCleaningUp false) w.

Definition unload (w : World) : World :=
  let w := on_vosk (set_isCleaningUp true) w in
  let w := stopInternal false w in
  let w := on_vosk (set_isCleaningUp false) w in
  on_vosk (set_currentModel None) w.

(** The block of the tap, run by the audio engine for each buffer. *)
Definition tapBlock (buffer : AudioBuffer) (w : World) : World :=
  if isCleaningUp (vosk w) then w
  else processingAsync (recognize buffer) w.

(** [recognizeData(buffer:)], first half: the three guards.  [None] is the
    early return [(nil, false)]; otherwise the recognizer that is handed to
    [vosk_recognizer_accept_waveform]. *)
Definition recognizeData_guards (buffer : AudioBuffer) (w : World)
    : option Recognizer :=
  if isCleaningUp (vosk w) then None
  else match recognizer (vosk w) with
       | None => None
       | Some r =>
           match int16ChannelData buffer with
           | None => None
           | Some _ => Some r
           end
       end.

(** What the decoder answers to one waveform: the value of
    [vosk_recognizer_accept_waveform] and the text of
    [vosk_recognizer_result] / [vosk_recognizer_partial_result] ([None]: a
    null pointer or bytes that are not UTF-8). *)
Record DecoderAnswer := mkDecoderAnswer {
  endOfSpeech : Z;
  cStringResult : option ResultJSON
}.

(** [recognizeData(buffer:)], second half. *)
Definition recognizeData_result (a : DecoderAnswer) : option ResultJSON * bool :=
  match cStringResult a with
  | None => (None, false)
  | Some stringResult => (Some stringResult, endOfSpeech a =? 1)
  end.

Definition recognizeData (buffer : AudioBuffer) (a : DecoderAnswer) (w : World)
    : option ResultJSON * bool :=
  match recognizeData_guards buffer w with
  | None => (None, false)
  | Some _ => recognizeData_result a
  end.

(** The block sent back to the main queue with the result of
    [recognizeData]. *)
Definition deliver (result : option ResultJSON) (completed : bool) (w : World)
    : World :=
  match result with
  | None => w
  | Some result =>
    match decodeVoskResult result with
    | None => w
    | Some parsedResult =>
      let final :=
        if completed && hasListener (vosk w) then
          match text parsedResult with
          | Some t => if negb (isEmpty t) then Some t else None
          | None => None
          end
        else None in
      let w :=
        match final with
        | Some t => sendEvent onResult t w
        | None =>
          let pending :=
            if negb completed && hasListener (vosk w) then
              match partial parsedResult with
              | Some p => if negb (isEmpty p) then Some p else None
              | None => None
              end
            else None in
          match pending with
          | Some p =>
              let previous := match lastRecognizedResult (vosk w) with
                              | Some last => partial last
                              | None => None
                              end in
              match previous with
              | Some q => if String.eqb q p then w
                          else sendEvent onPartialResult p w
              | None => sendEvent onPartialResult p w
              end
          | None => w
          end
        end in
      on_vosk (set_lastRecognizedResult (Some parsedResult)) w
    end
  end.

(** The block given to [Timer.scheduledTimer(withTimeInterval:repeats:)].
    Foundation replaces an interval that is not positive by 0.1 ms; at the
    millisecond resolution of the clock the timer is then due at once. *)
Definition timerInterval (timeout : Z) : Z := Z.max 0 timeout.

Definition scheduleTimerBlock (timeout : Z) (w : World) : World :=
  let i := timerCount w in
  let w := set_timerCount (S i) w in
  let w := set_timers (timers w ++ [(i, now w + timerInterval timeout)]) w in
  on_vosk (set_timeoutTimer (Some i)) w.

(** The timer's own block, run on the main run loop when it fires. *)
Definition timerBlock (w : World) : World :=
  processingAsync timeoutStop w.

(** What [timerBlock] submits to the processing queue. *)
Definition timeoutStopBlock (w : World) : World :=
  let w := stopInternal true w in
  sendEvent onTimeout EmptyString w.

Definition runMainBlock (b : MainBlock) (w : World) : World :=
  match b with
  | deliverResult result completed => deliver result completed w
  | scheduleTimer t => scheduleTimerBlock t w
  | releaseRecognizer => freeRecognizer w
  end.

(** ** The JavaScript wrapper (class [Vosk] of the package's index) *)

Module JS.

Inductive PlatformOS := ios | android.

(** [requestRecordPermission]: [granted] is the answer of
    [PermissionsAndroid.request]. *)
Definition requestRecordPermission (os : PlatformOS) (granted : bool) : bool :=
  match os with
  | ios => true
  | android => granted
  end.

(** [start = async options => { if (await ...) return VoskModule.start(options); }] *)
Definition start (os : PlatformOS) (granted : bool)
    (options : option RawOptions) (env : AudioSetup) (w : World)
    : World * Settled :=
  if requestRecordPermission os granted
  then start options env w
  else (w, resolve VUndefined).

End JS.

(** ** The module at run time

    One label per thing that can happen: a method called from JavaScript,
    a callback of the platform, a queue running its next block, the clock.
    Blocks run one at a time and whole, except the waveform call of
    [recognizeData], which takes time on the processing queue while the
    main queue and the callers go on: it begins with [processingNext] and
    returns with [decoderAnswers].  Every run of this system is a run of
    the module; the module has more, since its threads also interleave
    inside [stop], inside the release block and inside [recognizeData].
    A run found here is therefore a behaviour of the code, while the
    absence of a run here does not by itself exclude one there. *)

Inductive Label :=
| callLoadModel (name : string) (loaded : option VoskModel)
| callStart (rawOptions : option RawOptions) (env : AudioSetup)
| callStop
| callUnload
| callStartObserving
| callStopObserving
| permissionAnswer (success engineStarts : bool)
| tapDelivers (buffer : AudioBuffer)
| processingNext
| decoderAnswers (a : DecoderAnswer)
| mainNext
| timerFires (i : nat)
| delayElapses
| clockAdvances (d : Z).

Definition timerDue (i : nat) (w : World) : bool :=
  existsb (fun p => Nat.eqb (fst p) i && (snd p <=? now w)) (timers w).

Definition step (l : Label) (w : World) : option World :=
  match l with
  | callLoadModel name loaded => Some (fst (loadModel (fun _ => loaded) name w))
  | callStart rawOptions env => Some (fst (start rawOptions env w))
  | callStop => Some (stop w)
  | callUnload => Some (unload w)
  | callStartObserving => Some (startObserving w)
  | callStopObserving => Some (stopObserving w)
  | permissionAnswer success engineStarts =>
      match permissionRequests w with
      | O => None
      | S _ => Some (permissionAnswered success engineStarts w)
      end
  | tapDelivers buffer =>
      match inputTap (vosk w) with
      | Some _ => if isRunning (vosk w) then Some (tapBlock buffer w) else None
      | None => None
      end
  | processingNext =>
      match decoding w, processingQueue w with
      | None, recognize buffer :: q =>
          let w := set_processingQueue q w in
          match recognizeData_guards buffer w with
          | Some r => Some (set_decoding (Some (r, buffer)) w)
          | None => Some (mainAsync (deliverResult None false) w)
          end
      | None, timeoutStop :: q =>
          Some (timeoutStopBlock (set_processingQueue q w))
      | _, _ => None
      end
  | decoderAnswers a =>
      match decoding w with
      | Some _ =>
          let res := recognizeData_result a in
          Some (mainAsync (deliverResult (fst res) (snd res))
                          (set_decoding None w))
      | None => None
      end
  | mainNext =>
      match mainQueue w with
      | b :: q => Some (runMainBlock b (set_mainQueue q w))
      | [] => None
      end
  | timerFires i =>
      if timerDue i w
      then Some (timerBlock (invalidate (Some i) w))
      else None
  | delayElapses =>
      match delayed w with
      | (deadline, b) :: rest =>
          if deadline <=? now w
          then Some (mainAsync b (set_delayed rest w))
          else None
      | [] => None
      end
  | clockAdvances d =>
      if 0 <=? d then Some (set_now (now w + d) w) else None
  end.

Fixpoint run (ls : list Label) (w : World) : option World :=
  match ls with
  | [] => Some w
  | l :: ls =>
      match step l w with
      | Some w' => run ls w'
      | None => None
      end
  end.

(** A freshly initialised module: nothing loaded, nothing queued. *)
Definition initial : World :=
  mkWorld (mkVosk None None None None false false None false)
          [] [] [] None [] [] O [] O O 0.

Definition reachable (w : World) : Prop :=
  exists ls, run ls initial = Some w.

(** The events a step added to the log. *)
Definition emitted (before after : World) : list Event :=
  skipn (List.length (events before)) (events after).

Definition named (n : EventName) (es : list Event) : list Event :=
  filter (fun e => EventName_eqb (fst e) n) es.

(** The session is listening when the audio engine is running: this is the
    test [stopInternal] itself makes before it reports anything. *)
Definition Listening (w : World) : Prop := isRunning (vosk w) = true.

(** The session is loaded and at rest: a model, no tap, the engine
    stopped, no timer. *)
Definition Loaded (w : World) : Prop :=
  currentModel (vosk w) <> None /\ inputTap (vosk w) = None /\
  isRunning (vosk w) = false /\ timeoutTimer (vosk w) = None.

(** ** Views of the world used in the statements *)

(** The partial text held in [lastRecognizedResult], as [stopInternal] and
    the result block read it: [lastRecognizedResult?.partial]. *)
Definition retainedPartial (w : World) : option string :=
  match lastRecognizedResult (vosk w) with
  | Some last => partial last
  | None => None
  end.

(** The options [start] reads out of [rawOptions]. *)
Definition readTimeout (rawOptions : option RawOptions) : option Z :=
  match rawOptions with
  | Some (optionsJSON o) => timeout o
  | _ => None
  end.

(** The recognizers: the one the object holds, the addresses freed, the
    next address. *)
Definition heap (w : World) : option Recognizer * list nat * nat :=
  (recognizer (vosk w), freed w, allocated w).

(** The timers: the valid ones, the next identity, the one the object
    holds. *)
Definition clockwork (w : World) : list (nat * Z) * nat * option nat :=
  (timers w, timerCount w, timeoutTimer (vosk w)).

(** An event that carries recognised text carries some. *)
Definition textual (e : Event) : Prop :=
  match fst e with
  | onResult | onPartialResult | onFinalResult => snd e <> EmptyString
  | onError | onTimeout => True
  end.

(** How one step relates the events, the recognizers and the timers
    before and after it. *)
Definition events_step (w w' : World) : Prop :=
  events w' = events w \/
  exists e, events w' = events w ++ [e] /\ textual e.

Definition heap_step (w w' : World) : Prop :=
  heap w' = heap w \/
  ((exists r, recognizer (vosk w') = Some r /\ address r = allocated w) /\
   freed w' = freed w /\ allocated w' = S (allocated w)) \/
  (recognizer (vosk w') = None /\ allocated w' = allocated w /\
   (freed w' = freed w \/
    freed w' = match recognizer (vosk w) with
               | Some r => address r :: freed w
               | None => freed w
               end)).

Definition clockwork_step (w w' : World) : Prop :=
  clockwork w' = clockwork w \/
  (exists i, clockwork w' = (timers (invalidate i w), timerCount w, None)) \/
  (exists i, timers w' = timers (invalidate (Some i) w) /\
             timerCount w' = timerCount w /\
             timeoutTimer (vosk w') = timeoutTimer (vosk w)) \/
  (exists date, clockwork w' = (timers w ++ [(timerCount w, date)],
                                S (timerCount w), Some (timerCount w))).

(** The timer the object holds has been created. *)
Definition timer_known (w : World) : Prop :=
  forall i, timeoutTimer (vosk w) = Some i -> (i < timerCount w)%nat.

(** Timer [i] has been created and is not valid any more. *)
Definition timer_gone (i : nat) (w : World) : Prop :=
  (i < timerCount w)%nat /\ forall p, In p (timers w) -> fst p <> i.

(** ** Concrete inputs *)

Definition someModel : VoskModel := mkVoskModel 1.

Definition quietSetup : AudioSetup :=
  mkAudioSetup None None (Some 48000) 1 true None true.

Definition someBuffer : AudioBuffer := mkAudioBuffer (Some [0; 0]) 1.

Definition partialAnswer (p : string) : DecoderAnswer :=
  mkDecoderAnswer 0 (Some (resultJSON (mkVoskResult (Some p) None))).

Definition finalAnswer (t : string) : DecoderAnswer :=
  mkDecoderAnswer 1 (Some (resultJSON (mkVoskResult None (Some t)))).

(** A listener subscribes, a model is loaded, [start()] is called without
    options, the microphone is granted and the engine starts. *)
Definition listeningTrace : list Label :=
  [callStartObserving; callLoadModel "model-en-us" (Some someModel);
   callStart None quietSetup; permissionAnswer true true].

(** One buffer goes through the tap, the processing queue, the decoder and
    back to the main queue. *)
Definition hears (a : DecoderAnswer) : list Label :=
  [tapDelivers someBuffer; processingNext; decoderAnswers a; mainNext].

(** A listener subscribed and a model loaded, nothing started. *)
Definition loadedTrace : list Label :=
  [callStartObserving; callLoadModel "model-en-us" (Some someModel)].

Definition startWithTimeout (t : Z) : Label :=
  callStart (Some (optionsJSON (mkVoskStartOptions None (Some t)))) quietSetup.

(** The world a trace leads to from the initial one. *)
Definition after (ls : list Label) : World :=
  match run ls initial with
  | Some w => w
  | None => initial
  end.

(** A buffer is delivered and the processing queue begins the waveform
    call; [stop] is called; 500 ms pass, the block left by [asyncAfter] is
    submitted and the main queue runs it. *)
Definition releaseDuringDecode : list Label :=
  listeningTrace ++
  [tapDelivers someBuffer; processingNext; callStop;
   clockAdvances 500; delayElapses; mainNext].

(** The session is listening and a waveform call is in progress. *)
Definition decodingWorld : World :=
  after (listeningTrace ++ [tapDelivers someBuffer; processingNext]).

(** Two buffers are delivered and the first waveform call begins; [stop]
    is called; the first call returns 400 ms later and the processing
    queue begins the second one, on the buffer admitted before the stop;
    100 ms later the block left by [asyncAfter] is submitted and run. *)
Definition releaseDuringBacklog : list Label :=
  listeningTrace ++
  [tapDelivers someBuffer; tapDelivers someBuffer; processingNext; callStop;
   clockAdvances 400; decoderAnswers (partialAnswer "hel"); mainNext;
   processingNext; clockAdvances 100; delayElapses; mainNext].

(** ** The claims that fail, as the specification words them *)

(** C1, as the specification words it: in every run, a waveform call that
    is in progress is in progress on a recognizer that has not been freed
    (the release waits for the call to complete). *)
Definition drained_before_release : Prop :=
  forall w, reachable w ->
  forall r buffer, decoding w = Some (r, buffer) -> ~ In (address r) (freed w).

Definition fires (l : Label) : bool :=
  match l with timerFires _ => true | _ => false end.

Definition starts (l : Label) : bool :=
  match l with callStart _ _ => true | _ => false end.

(** C3, as the specification words it.  A session is started with a
    timeout; [stop] is called before any timer has fired, and no other
    [start] is made: then no timer fires afterwards and onTimeout is never
    sent. *)
Definition stop_first_silences_timer (t : Z) : Prop :=
  forall ls1 ls2 w,
    existsb starts (ls1 ++ ls2) = false ->
    existsb fires ls1 = false ->
    run (loadedTrace ++ startWithTimeout t :: ls1 ++ callStop :: ls2) initial
      = Some w ->
    existsb fires ls2 = false /\ named onTimeout (events w) = [].

(** The body of the last onPartialResult event of a log. *)
Definition lastEmittedPartial (es : list Event) : option string :=
  match rev (named onPartialResult es) with
  | e :: _ => Some (snd e)
  | [] => None
  end.

(** C4, as the specification words it: a non-final result with the
    non-empty partial text [p] raises onPartialResult if and only if [p]
    differs from the last partial text that was emitted. *)
Definition raised_iff_differs_from_last_emitted (w : World) (p : string) : Prop :=
  emitted w (deliver (Some (resultJSON (mkVoskResult (Some p) None))) false w)
    = [(onPartialResult, p)]
  <-> lastEmittedPartial (events w) <> Some p.

(** C6, as the specification words it: once [start] has been called with a
    timeout that is zero or negative, no continuation of the run without
    another [start] ever sends onTimeout. *)
Definition never_times_out (ls : list Label) : Prop :=
  forall ls' w,
    existsb starts ls' = false ->
    run (ls ++ ls') initial = Some w -> named onTimeout (events w) = [].

(** C8, as the specification words it: whatever fails in the audio setup
    of [start], the call is rejected, no recognizer is left, the session is
    back at rest and a subscribed listener gets an onError event. *)
Definition failure_rolled_back_and_reported (rawOptions : option RawOptions)
    (env : AudioSetup) (w : World) : Prop :=
  let r := start rawOptions env w in
  (exists message, snd r = reject "start" message) /\
  recognizer (vosk (fst r)) = None /\
  Loaded (fst r) /\
  (hasListener (vosk w) = true ->
   exists body, In (onError, body) (emitted w (fst r))).

(** C9, as the specification words it: a [start] in which the microphone
    is denied is rejected and creates neither recognizer nor tap.  On
    Android the denial is the answer of [requestRecordPermission] in the
    wrapper; on iOS it is the answer given to the completion handler of
    the native [start]. *)
Definition denial_is_a_start_failure (os : JS.PlatformOS)
    (rawOptions : option RawOptions) (env : AudioSetup) (w : World) : Prop :=
  let r := JS.start os false rawOptions env w in
  let w' := match os with
            | JS.android => fst r
            | JS.ios => permissionAnswered false false (fst r)
            end in
  (exists code message, snd r = reject code message) /\
  recognizer (vosk w') = recognizer (vosk w) /\
  inputTap (vosk w') = inputTap (vosk w).

(** ** More views, for the properties beyond the claims *)

(** What [stopInternal] leaves of the object: the tap, the retained result
    and the timer are gone and the engine is stopped; the model, the
    recognizer and the two flags are kept. *)
Definition atRest (v : Vosk) : Vosk :=
  mkVosk (currentModel v) (recognizer v) None None
         (hasListener v) (isCleaningUp v) None false.

(** The event [stopInternal] sends, if any. *)
Definition finalEvents (withoutEvents : bool) (w : World) : list Event :=
  if isRunning (vosk w) && hasListener (vosk w) && negb withoutEvents
  then match retainedPartial w with
       | Some p => if isEmpty p then [] else [(onFinalResult, p)]
       | None => []
       end
  else [].

(** The sample rate and the channel count [start] settles on. *)
Definition negotiatedRate (env : AudioSetup) : Z :=
  match inputSampleRate env with
  | Some r => if 0 <? r then r else 16000
  | None => 16000
  end.

Definition negotiatedChannels (env : AudioSetup) : Z :=
  if 0 <? inputChannelCount env then inputChannelCount env else 1.

(** The grammar [start] hands to the decoder: none when the options hold
    none or an empty one. *)
Definition readGrammar (rawOptions : option RawOptions) : option (list string) :=
  match rawOptions with
  | Some (optionsJSON o) =>
      match grammar o with
      | Some (p :: g) => Some (p :: g)
      | _ => None
      end
  | _ => None
  end.

(** ** Tactics *)

(** Unfolds a method down to its field updates and splits on every test
    it makes. *)
Ltac split_tests :=
  repeat match goal with
         | |- context [match ?x with _ => _ end] => destruct x eqn:?
         | |- context [if ?x then _ else _] => destruct x eqn:?
         end.

Ltac fields :=
  cbn [vosk events mainQueue processingQueue decoding timers delayed
       permissionRequests freed allocated timerCount now
       currentModel recognizer lastRecognizedResult timeoutTimer
       hasListener isCleaningUp inputTap isRunning
       on_vosk set_events set_mainQueue set_processingQueue set_decoding
       set_timers set_delayed set_permissionRequests set_freed
       set_allocated set_timerCount set_now
       set_currentModel set_recognizer set_lastRecognizedResult
       set_timeoutTimer set_hasListener set_isCleaningUp set_inputTap
       set_isRunning sendEvent mainAsync processingAsync mainAsyncAfter
       fst snd] in *.

Ltac open_world w :=
  destruct w as [[m rc last t l c tap running] ev mq pq d ts ds n f a tc clock].

(** * Lemmas *)

(** ** The event log *)

Lemma emitted_app (w w' : World) (es : list Event) :
  events w' = events w ++ es -> emitted w w' = es.
Proof.
  unfold emitted. intros ->.
  induction (events w) as [|e l IH]; simpl; auto.
Qed.

Lemma emitted_same (w w' : World) :
  events w' = events w -> emitted w w' = [].
Proof.
  intros H. apply emitted_app. now rewrite app_nil_r.
Qed.

Lemma isEmpty_false (s : string) : isEmpty s = false <-> s <> EmptyString.
Proof. destruct s; simpl; split; intros; congruence. Qed.

(** What [stopInternal] hands to [sendEvent]. *)
Lemma events_stopInternal (withoutEvents : bool) (w : World) :
  events (stopInternal withoutEvents w) =
  events w ++
  (if isRunning (vosk w) && hasListener (vosk w) && negb withoutEvents
   then match retainedPartial w with
        | Some p => if isEmpty p then [] else [(onFinalResult, p)]
        | None => []
        end
   else []).
Proof.
  unfold stopInternal, retainedPartial.
  destruct w as [[m r last t l c tap running] ev mq pq d ts ds n f a tc clock].
  destruct running, l, withoutEvents, last as [[[p|] tx]|], t;
    try destruct (isEmpty p) eqn:E;
    cbn -[filter]; rewrite ?E; cbn -[filter]; rewrite ?app_nil_r; reflexivity.
Qed.

Lemma events_on_vosk (f : Vosk -> Vosk) (w : World) :
  events (on_vosk f w) = events w.
Proof. reflexivity. Qed.

Lemma vosk_on_vosk (f : Vosk -> Vosk) (w : World) :
  vosk (on_vosk f w) = f (vosk w).
Proof. reflexivity. Qed.

Lemma events_stop (w : World) :
  events (stop w) =
  events w ++
  (if isRunning (vosk w) && hasListener (vosk w)
   then match retainedPartial w with
        | Some p => if isEmpty p then [] else [(onFinalResult, p)]
        | None => []
        end
   else []).
Proof.
  unfold stop. cbv zeta.
  rewrite events_on_vosk, events_stopInternal, events_on_vosk.
  unfold retainedPartial. rewrite vosk_on_vosk.
  destruct (vosk w); cbn [set_isCleaningUp isRunning hasListener
                          lastRecognizedResult negb].
  now rewrite andb_true_r.
Qed.

(** What the result block hands to [sendEvent] and what it keeps. *)
Lemma events_deliver (result : ResultJSON) (completed : bool) (w : World)
    (r : VoskResult) :
  decodeVoskResult result = Some r ->
  events (deliver (Some result) completed w) =
  events w ++
  (if hasListener (vosk w) then
     if completed then
       match text r with
       | Some t => if isEmpty t then [] else [(onResult, t)]
       | None => []
       end
     else
       match partial r with
       | Some p =>
           if isEmpty p then []
           else match retainedPartial w with
                | Some q => if String.eqb q p then [] else [(onPartialResult, p)]
                | None => [(onPartialResult, p)]
                end
       | None => []
       end
   else []).
Proof.
  intros D. unfold deliver, retainedPartial. rewrite D.
  destruct w as [[m rc last t l c tap running] ev mq pq d ts ds n f a tc clock].
  fields.
  destruct completed, l; cbn [andb negb]; fields; rewrite ?app_nil_r;
    try reflexivity.
  - destruct (text r) as [tx|]; fields; rewrite ?app_nil_r; try reflexivity.
    destruct (isEmpty tx); cbn [negb]; fields; rewrite ?app_nil_r; reflexivity.
  - destruct (partial r) as [p|]; fields; rewrite ?app_nil_r; try reflexivity.
    destruct (isEmpty p); cbn [negb]; fields; rewrite ?app_nil_r;
      try reflexivity.
    destruct last as [[[q|] tx]|]; cbn [partial]; fields; try reflexivity.
    destruct (String.eqb q p); fields; rewrite ?app_nil_r; reflexivity.
Qed.

Lemma vosk_deliver (result : ResultJSON) (completed : bool) (w : World)
    (r : VoskResult) :
  decodeVoskResult result = Some r ->
  vosk (deliver (Some result) completed w) =
  set_lastRecognizedResult (Some r) (vosk w).
Proof.
  intros D. unfold deliver. rewrite D.
  destruct w as [[m rc last t l c tap running] ev mq pq d ts ds n f a tc clock].
  fields. split_tests; reflexivity.
Qed.

Lemma events_deliver_dropped (result : option ResultJSON) (completed : bool)
    (w : World) :
  match result with
  | Some j => decodeVoskResult j = None
  | None => True
  end ->
  deliver result completed w = w.
Proof.
  unfold deliver. destruct result as [j|]; intros D; [now rewrite D | reflexivity].
Qed.

Lemma start_guard (rawOptions : option RawOptions) (env : AudioSetup)
    (w : World) :
  currentModel (vosk w) = None ->
  start rawOptions env w = (w, reject "start" "No model loaded").
Proof.
  intros H. unfold start. now rewrite H.
Qed.

(** ** What [start] leaves behind *)

Lemma start_resolved (rawOptions : option RawOptions) (env : AudioSetup)
    (w w' : World) (v : Value) :
  start rawOptions env w = (w', resolve v) ->
  v = VString "Recognizer successfully started" /\
  (if recognizerNew env
   then exists r, recognizer (vosk w') = Some r /\ address r = allocated w
   else recognizer (vosk w') = None) /\
  inputTap (vosk w') <> None /\
  isRunning (vosk w') = isRunning (vosk w) /\
  events w' = events w /\
  permissionRequests w' = S (permissionRequests w) /\
  mainQueue w' = mainQueue w ++
                 match readTimeout rawOptions with
                 | Some t => [scheduleTimer t]
                 | None => []
                 end.
Proof.
  unfold start, startCatch, readTimeout.
  destruct (currentModel (vosk w)) as [m|]; [|discriminate].
  destruct (setCategory env); [discriminate|].
  destruct (setActive env); [discriminate|].
  destruct (pcmFormat env); cbn [negb]; [|discriminate].
  destruct rawOptions as [[[g tm]|]|]; cbn [grammar timeout].
  - destruct g as [[|p g]|]; [| destruct (encodeGrammar env); [discriminate|] |];
      destruct tm, (recognizerNew env); intros H; injection H as <- <-;
      fields; rewrite ?app_nil_r; repeat split; eauto; discriminate.
  - destruct (recognizerNew env); intros H; injection H as <- <-; fields;
      rewrite ?app_nil_r; repeat split; eauto; discriminate.
  - destruct (recognizerNew env); intros H; injection H as <- <-; fields;
      rewrite ?app_nil_r; repeat split; eauto; discriminate.
Qed.

Lemma startCatch_spec (e : string) (w : World) :
  let w' := fst (startCatch e w) in
  snd (startCatch e w) = reject "start" e /\
  recognizer (vosk w') = None /\
  events w' = events w ++
              (if hasListener (vosk w)
               then [(onError, ("Unable to start AVAudioEngine: " ++ e)%string)]
               else []) /\
  freed w' = match recognizer (vosk w) with
             | Some r => address r :: freed w
             | None => freed w
             end /\
  set_recognizer None (vosk w') = set_recognizer None (vosk w) /\
  mainQueue w' = mainQueue w /\ processingQueue w' = processingQueue w /\
  timers w' = timers w /\ delayed w' = delayed w /\
  permissionRequests w' = permissionRequests w.
Proof.
  unfold startCatch, freeRecognizer.
  destruct w as [[m rc last t l c tap running] ev mq pq d ts ds n f a tc clock].
  fields. destruct l, rc; fields; rewrite ?app_nil_r; repeat split.
Qed.

(** ** What each block changes *)

Lemma frame_loadModel (i : string -> option VoskModel) (name : string)
    (w : World) :
  heap (fst (loadModel i name w)) = heap w /\
  clockwork (fst (loadModel i name w)) = clockwork w /\
  events (fst (loadModel i name w)) = events w.
Proof.
  unfold loadModel. open_world w.
  destruct m, (i name); repeat split.
Qed.

Lemma frame_stopInternal (withoutEvents : bool) (w : World) :
  heap (stopInternal withoutEvents w) = heap w /\
  clockwork (stopInternal withoutEvents w) =
    (timers (invalidate (timeoutTimer (vosk w)) w), timerCount w, None).
Proof.
  unfold stopInternal. open_world w.
  destruct running, l, withoutEvents, last as [[[p|] tx]|], t;
    try destruct (isEmpty p) eqn:E;
    cbn -[filter]; rewrite ?E; repeat split.
Qed.

Lemma frame_deliver (result : option ResultJSON) (completed : bool) (w : World) :
  heap (deliver result completed w) = heap w /\
  clockwork (deliver result completed w) = clockwork w.
Proof.
  unfold deliver. open_world w.
  destruct result as [[r|raw]|]; [|repeat split..].
  cbn [decodeVoskResult].
  destruct completed, l, (text r) as [tx|], (partial r) as [p|],
    last as [[[q|] tq]|];
    try destruct (isEmpty tx) eqn:Ex; try destruct (isEmpty p) eqn:Ep;
    try destruct (String.eqb q p) eqn:Eq;
    cbn; rewrite ?Ex, ?Ep; cbn; rewrite ?Eq; repeat split.
Qed.

Lemma frame_freeRecognizer (w : World) :
  clockwork (freeRecognizer w) = clockwork w /\
  events (freeRecognizer w) = events w /\
  recognizer (vosk (freeRecognizer w)) = None /\
  allocated (freeRecognizer w) = allocated w /\
  freed (freeRecognizer w) = match recognizer (vosk w) with
                             | Some r => address r :: freed w
                             | None => freed w
                             end.
Proof.
  unfold freeRecognizer. open_world w. destruct rc; repeat split.
Qed.

Lemma start_resolved_frame (rawOptions : option RawOptions) (env : AudioSetup)
    (w w' : World) (v : Value) :
  start rawOptions env w = (w', resolve v) ->
  clockwork w' = clockwork w /\
  freed w' = freed w /\
  allocated w' = (if recognizerNew env then S (allocated w) else allocated w).
Proof.
  unfold start, startCatch.
  destruct (currentModel (vosk w)) as [mo|]; [|discriminate].
  destruct (setCategory env); [discriminate|].
  destruct (setActive env); [discriminate|].
  destruct (pcmFormat env); cbn [negb]; [|discriminate].
  destruct rawOptions as [[[g tm]|]|]; cbn [grammar timeout].
  - destruct g as [[|p g]|]; [| destruct (encodeGrammar env); [discriminate|] |];
      destruct tm, (recognizerNew env); intros H; injection H as <- <-;
      repeat split.
  - destruct (recognizerNew env); intros H; injection H as <- <-;
      repeat split.
  - destruct (recognizerNew env); intros H; injection H as <- <-;
      repeat split.
Qed.

Lemma start_rejected (rawOptions : option RawOptions) (env : AudioSetup)
    (w w' : World) (code message : string) :
  start rawOptions env w = (w', reject code message) ->
  w' = w \/ exists e, w' = fst (startCatch e w).
Proof.
  unfold start.
  destruct (currentModel (vosk w)) as [mo|];
    [|intros H; injection H as <-; auto].
  destruct (setCategory env) as [e|];
    [intros H; right; exists e; now rewrite H|].
  destruct (setActive env) as [e|];
    [intros H; right; exists e; now rewrite H|].
  destruct (pcmFormat env); cbn [negb]; [|intros H; injection H as <-; auto].
  destruct rawOptions as [[[g tm]|]|]; cbn [grammar timeout].
  - destruct g as [[|p g]|]; [discriminate| |discriminate].
    destruct (encodeGrammar env) as [e|]; [|discriminate].
    intros H; right; exists e; now rewrite H.
  - discriminate.
  - discriminate.
Qed.

Lemma frame_start (rawOptions : option RawOptions) (env : AudioSetup)
    (w : World) :
  let w' := fst (start rawOptions env w) in
  clockwork w' = clockwork w /\
  (events w' = events w \/ exists body, events w' = events w ++ [(onError, body)]) /\
  (heap w' = heap w \/
   (exists r, recognizer (vosk w') = Some r /\ address r = allocated w) /\
     freed w' = freed w /\ allocated w' = S (allocated w) \/
   recognizer (vosk w') = None /\ allocated w' = allocated w /\
     (freed w' = freed w \/
      freed w' = match recognizer (vosk w) with
                 | Some r => address r :: freed w
                 | None => freed w
                 end)).
Proof.
  destruct (start rawOptions env w) as [w' [v|code message]] eqn:E; cbn [fst].
  - destruct (start_resolved _ _ _ _ _ E) as (_ & R & _ & _ & Ev & _).
    destruct (start_resolved_frame _ _ _ _ _ E) as (Ck & F & A).
    split; [exact Ck|]. split; [now left|].
    destruct (recognizerNew env); [right; left|right; right]; auto.
  - destruct (start_rejected _ _ _ _ _ _ E) as [->|[e ->]].
    + split; [reflexivity|]. split; left; reflexivity.
    + destruct (startCatch_spec e w) as (_ & B & Ev & Fr & V & _ & _ & T & _).
      destruct (frame_freeRecognizer
                  (if hasListener (vosk w)
                   then sendEvent onError
                          ("Unable to start AVAudioEngine: " ++ e) w
                   else w)) as (Ck & _ & _ & Al & _).
      change (fst (startCatch e w)) with
        (freeRecognizer (if hasListener (vosk w)
                         then sendEvent onError
                                ("Unable to start AVAudioEngine: " ++ e) w
                         else w)) in *.
      split.
      * rewrite Ck. destruct (hasListener (vosk w)); reflexivity.
      * split.
        -- rewrite Ev. destruct (hasListener (vosk w)); [right|left].
           ++ eexists; reflexivity.
           ++ now rewrite app_nil_r.
        -- right; right. split; [exact B|]. split; [|right; exact Fr].
           rewrite Al. destruct (hasListener (vosk w)); reflexivity.
Qed.

Lemma frame_flag (b : bool) (w : World) :
  heap (on_vosk (set_isCleaningUp b) w) = heap w /\
  clockwork (on_vosk (set_isCleaningUp b) w) = clockwork w /\
  events (on_vosk (set_isCleaningUp b) w) = events w.
Proof. open_world w. repeat split. Qed.

Lemma timers_invalidate_flag (b : bool) (w : World) :
  timers (invalidate (timeoutTimer (vosk (on_vosk (set_isCleaningUp b) w)))
                     (on_vosk (set_isCleaningUp b) w)) =
  timers (invalidate (timeoutTimer (vosk w)) w).
Proof. open_world w. destruct t; reflexivity. Qed.

Lemma frame_stop (w : World) :
  heap (stop w) = heap w /\
  clockwork (stop w) =
    (timers (invalidate (timeoutTimer (vosk w)) w), timerCount w, None).
Proof.
  unfold stop. cbv zeta.
  destruct (frame_flag false
              (stopInternal false (on_vosk (set_isCleaningUp true) w)))
    as (H & C & _).
  destruct (frame_stopInternal false (on_vosk (set_isCleaningUp true) w))
    as (H' & C').
  destruct (frame_flag true w) as (H'' & _).
  rewrite H, H', H'', C, C', timers_invalidate_flag. split; reflexivity.
Qed.

Lemma frame_model (loaded : option VoskModel) (w : World) :
  heap (on_vosk (set_currentModel loaded) w) = heap w /\
  clockwork (on_vosk (set_currentModel loaded) w) = clockwork w /\
  events (on_vosk (set_currentModel loaded) w) = events w.
Proof. open_world w. repeat split. Qed.

Lemma unload_stop (w : World) :
  unload w = on_vosk (set_currentModel None) (stop w).
Proof. reflexivity. Qed.

Lemma frame_timeoutStopBlock (w : World) :
  heap (timeoutStopBlock w) = heap w /\
  clockwork (timeoutStopBlock w) =
    (timers (invalidate (timeoutTimer (vosk w)) w), timerCount w, None) /\
  events (timeoutStopBlock w) = events w ++ [(onTimeout, EmptyString)].
Proof.
  unfold timeoutStopBlock. cbv zeta.
  destruct (frame_stopInternal true w) as (H & C).
  pose proof (events_stopInternal true w) as E.
  change (negb true) with false in E.
  rewrite andb_false_r, app_nil_r in E.
  revert H C E. generalize (stopInternal true w). intros u H C E.
  rewrite <- H, <- C, <- E. open_world u. repeat split.
Qed.

Lemma quiet_step (w w' : World) :
  events w' = events w -> heap w' = heap w -> clockwork w' = clockwork w ->
  events_step w w' /\ heap_step w w' /\ clockwork_step w w'.
Proof.
  intros E H C. split; [now left|]. split; now left.
Qed.

Lemma events_step_final (w w' : World) :
  events w' = events w ++
    (if isRunning (vosk w) && hasListener (vosk w)
     then match retainedPartial w with
          | Some p => if isEmpty p then [] else [(onFinalResult, p)]
          | None => []
          end
     else []) ->
  events_step w w'.
Proof.
  intros H. unfold events_step. rewrite H.
  destruct (isRunning (vosk w) && hasListener (vosk w));
    [|left; apply app_nil_r].
  destruct (retainedPartial w) as [p|]; [|left; apply app_nil_r].
  destruct (isEmpty p) eqn:E; [left; apply app_nil_r|].
  right. eexists. split; [reflexivity|]. now apply isEmpty_false.
Qed.

Lemma events_step_deliver (result : option ResultJSON) (completed : bool)
    (w : World) :
  events_step w (deliver result completed w).
Proof.
  destruct result as [[r|raw]|];
    [|left; now rewrite events_deliver_dropped..].
  unfold events_step.
  rewrite (events_deliver (resultJSON r) completed w r eq_refl).
  destruct (hasListener (vosk w)); [|left; apply app_nil_r].
  destruct completed.
  - destruct (text r) as [tx|]; [|left; apply app_nil_r].
    destruct (isEmpty tx) eqn:E; [left; apply app_nil_r|].
    right. eexists. split; [reflexivity|]. now apply isEmpty_false.
  - destruct (partial r) as [p|]; [|left; apply app_nil_r].
    destruct (isEmpty p) eqn:E; [left; apply app_nil_r|].
    assert (T : textual (onPartialResult, p)) by now apply isEmpty_false.
    destruct (retainedPartial w) as [q|]; [destruct (String.eqb q p)|];
      [left; apply app_nil_r| |]; right; eexists; split; try reflexivity;
      exact T.
Qed.

Lemma step_summary (l : Label) (w w' : World) :
  step l w = Some w' ->
  events_step w w' /\ heap_step w w' /\ clockwork_step w w'.
Proof.
  destruct l; cbn [step].
  - (* loadModel *)
    intros [= <-].
    destruct (frame_loadModel (fun _ => loaded) name w) as (H & C & E).
    now apply quiet_step.
  - (* start *)
    intros [= <-].
    destruct (frame_start rawOptions env w) as (C & E & H).
    split; [|split; [exact H | now left]].
    destruct E as [E|[body E]]; [now left|].
    right. exists (onError, body). split; [exact E | exact I].
  - (* stop *)
    intros [= <-]. destruct (frame_stop w) as (H & C).
    split; [apply events_step_final, events_stop|].
    split; [now left|]. right; left. eexists; exact C.
  - (* unload *)
    intros [= <-]. rewrite unload_stop.
    destruct (frame_stop w) as (H & C).
    destruct (frame_model None (stop w)) as (H' & C' & E').
    split; [apply events_step_final; rewrite E'; apply events_stop|].
    split; [left; now rewrite H'|]. right; left. eexists.
    rewrite C'. exact C.
  - intros [= <-]. now apply quiet_step.
  - intros [= <-]. now apply quiet_step.
  - (* permission *)
    destruct (permissionRequests w); [discriminate|]. intros [= <-].
    unfold permissionAnswered. destruct success, engineStarts;
      now apply quiet_step.
  - (* tap *)
    destruct (inputTap (vosk w)); [|discriminate].
    destruct (isRunning (vosk w)); [|discriminate]. intros [= <-].
    unfold tapBlock. destruct (isCleaningUp (vosk w)); now apply quiet_step.
  - (* processing queue *)
    destruct (decoding w); [discriminate|].
    destruct (processingQueue w) as [|[buffer|] q]; [discriminate| |].
    + destruct (recognizeData_guards buffer (set_processingQueue q w));
        intros [= <-]; now apply quiet_step.
    + intros [= <-].
      destruct (frame_timeoutStopBlock (set_processingQueue q w))
        as (H & C & E).
      split; [right; exists (onTimeout, EmptyString); split; [exact E|exact I]|].
      split; [now left|]. right; left.
      exists (timeoutTimer (vosk w)). rewrite C.
      change (timeoutTimer (vosk (set_processingQueue q w)))
        with (timeoutTimer (vosk w)).
      destruct (timeoutTimer (vosk w)); reflexivity.
  - (* decoder *)
    destruct (decoding w); [|discriminate]. intros [= <-].
    now apply quiet_step.
  - (* main queue *)
    destruct (mainQueue w) as [|[result completed|tm|] q]; [discriminate|..];
      intros [= <-]; cbn [runMainBlock].
    + destruct (frame_deliver result completed (set_mainQueue q w)) as (H & C).
      pose proof (events_step_deliver result completed (set_mainQueue q w)) as E.
      split; [exact E|]. split; now left.
    + split; [now left|]. split; [now left|].
      right; right; right. eexists. reflexivity.
    + destruct (frame_freeRecognizer (set_mainQueue q w))
        as (C & E & R & A & F).
      split; [now left|]. split; [|now left].
      right; right. split; [exact R|]. split; [exact A | right; exact F].
  - (* timer *)
    destruct (timerDue i w); [|discriminate]. intros [= <-].
    split; [now left|]. split; [now left|].
    right; right; left. exists i. repeat split.
  - (* asyncAfter *)
    destruct (delayed w) as [|[deadline b] rest]; [discriminate|].
    destruct (deadline <=? now w); [|discriminate]. intros [= <-].
    now apply quiet_step.
  - (* clock *)
    destruct (0 <=? d); [|discriminate]. intros [= <-].
    now apply quiet_step.
Qed.

(** ** Invariants of the runs *)

Lemma run_invariant (P : World -> Prop) :
  (forall l w w', P w -> step l w = Some w' -> P w') ->
  forall ls w w', P w -> run ls w = Some w' -> P w'.
Proof.
  intros S ls. induction ls as [|l ls IH]; cbn [run]; intros w w' Pw R.
  - now injection R as <-.
  - destruct (step l w) as [u|] eqn:E; [|discriminate].
    apply (IH u); [now apply (S l w)|exact R].
Qed.

Lemma reachable_invariant (P : World -> Prop) :
  P initial ->
  (forall l w w', P w -> step l w = Some w' -> P w') ->
  forall w, reachable w -> P w.
Proof.
  intros I S w [ls R]. exact (run_invariant P S ls initial w I R).
Qed.

(** Every event that carries recognised text carries some. *)
Lemma events_textual (w : World) :
  reachable w -> Forall textual (events w).
Proof.
  revert w.
  apply (reachable_invariant (fun u => Forall textual (events u)));
    [constructor|].
  intros l u u' P S.
  destruct (step_summary l u u' S) as ([E|(e & E & T)] & _); rewrite E.
  - exact P.
  - apply Forall_app. split; [exact P|]. now constructor.
Qed.

Lemma timer_known_reachable (w : World) : reachable w -> timer_known w.
Proof.
  revert w. apply (reachable_invariant timer_known); [discriminate|].
  intros l u u' K S i.
  destruct (step_summary l u u' S) as (_ & _ & C).
  destruct C as [C|[(j & C)|[(j & _ & Cc & Ct)|(date & C)]]].
  - unfold clockwork in C. injection C as _ Cc Ct. rewrite Cc, Ct. apply K.
  - unfold clockwork in C. injection C as _ _ Ct. rewrite Ct. discriminate.
  - rewrite Cc, Ct. apply K.
  - unfold clockwork in C. injection C as _ Cc Ct. rewrite Cc, Ct.
    intros [= <-]. lia.
Qed.

Lemma clockwork_eq (w : World) (ts : list (nat * Z)) (c : nat)
    (held : option nat) :
  clockwork w = (ts, c, held) ->
  timers w = ts /\ timerCount w = c /\ timeoutTimer (vosk w) = held.
Proof.
  unfold clockwork. intros H. injection H as -> -> ->. repeat split.
Qed.

Lemma timers_invalidate (j : option nat) (w : World) (p : nat * Z) :
  In p (timers (invalidate j w)) ->
  In p (timers w) /\ forall i, j = Some i -> fst p <> i.
Proof.
  destruct j as [i|]; cbn [invalidate]; [|intros H; split; [exact H|discriminate]].
  cbn [timers set_timers]. intros H. apply filter_In in H as [H N].
  split; [exact H|]. intros i' [= <-].
  apply negb_true_iff in N. now apply Nat.eqb_neq in N.
Qed.

Lemma timer_gone_step (i : nat) (l : Label) (w w' : World) :
  timer_gone i w -> step l w = Some w' -> timer_gone i w'.
Proof.
  intros [B G] S.
  destruct (step_summary l w w' S) as (_ & _ & C).
  destruct C as [C|[(j & C)|[(j & Ctm & Cc & _)|(date & C)]]].
  - unfold clockwork in C. injection C as Ctm Cc _.
    unfold timer_gone. rewrite Ctm, Cc. now split.
  - unfold clockwork in C. injection C as Ctm Cc _.
    unfold timer_gone. rewrite Ctm, Cc. split; [exact B|].
    intros p I. now apply G, (timers_invalidate j w p).
  - unfold timer_gone. rewrite Ctm, Cc. split; [exact B|].
    intros p I. now apply G, (timers_invalidate (Some j) w p).
  - unfold clockwork in C. injection C as Ctm Cc _.
    unfold timer_gone. rewrite Ctm, Cc. split; [lia|].
    intros p I. apply in_app_or in I as [I|[<-|[]]]; [now apply G|].
    cbn [fst]. lia.
Qed.

Lemma timer_gone_not_due (i : nat) (w : World) :
  timer_gone i w -> timerDue i w = false.
Proof.
  intros [_ G]. unfold timerDue.
  apply not_true_is_false. intros E.
  apply existsb_exists in E as (p & I & E).
  apply andb_true_iff in E as [E _]. apply Nat.eqb_eq in E.
  now apply (G p I).
Qed.

Lemma timer_gone_forever (i : nat) (ls : list Label) (w w' : World) :
  timer_gone i w -> run ls w = Some w' -> ~ In (timerFires i) ls.
Proof.
  revert w. induction ls as [|l ls IH]; intros w G R; [intros []|].
  cbn [run] in R. destruct (step l w) as [u|] eqn:S; [|discriminate].
  intros [->|I].
  - cbn [step] in S. now rewrite (timer_gone_not_due i w G) in S.
  - exact (IH u (timer_gone_step i l w u G S) R I).
Qed.

(** ** What [stop] leaves in the queues, and the release that follows *)

Lemma stopInternal_queues (withoutEvents : bool) (w : World) :
  inputTap (vosk (stopInternal withoutEvents w)) = None /\
  heap (stopInternal withoutEvents w) = heap w /\
  mainQueue (stopInternal withoutEvents w) = mainQueue w /\
  processingQueue (stopInternal withoutEvents w) = processingQueue w /\
  decoding (stopInternal withoutEvents w) = decoding w /\
  now (stopInternal withoutEvents w) = now w /\
  delayed (stopInternal withoutEvents w)
    = delayed w ++ [(now w + 500, releaseRecognizer)].
Proof.
  unfold stopInternal.
  destruct w as [[m rc last t l c tap running] ev mq pq d ts ds n f a tc clock].
  destruct running, l, withoutEvents, last as [[[p|] tx]|], t;
    try destruct (isEmpty p) eqn:Ep;
    cbn -[filter Z.add]; rewrite ?Ep; repeat split.
Qed.

Lemma stop_queues (w : World) :
  inputTap (vosk (stop w)) = None /\
  heap (stop w) = heap w /\
  mainQueue (stop w) = mainQueue w /\
  processingQueue (stop w) = processingQueue w /\
  decoding (stop w) = decoding w /\
  now (stop w) = now w /\
  delayed (stop w) = delayed w ++ [(now w + 500, releaseRecognizer)].
Proof.
  unfold stop. cbv zeta.
  destruct (stopInternal_queues false (on_vosk (set_isCleaningUp true) w))
    as (A & B & C & D & E & F & G).
  revert A B C D E F G.
  generalize (stopInternal false (on_vosk (set_isCleaningUp true) w)).
  intros u A B C D E F G.
  destruct (frame_flag true w) as (H & _).
  rewrite <- H.
  destruct u as [[m rc last t l c tap running] ev mq pq d ts ds n f a tc clock].
  cbn in *. repeat split; assumption.
Qed.

Lemma run_cons (l : Label) (ls : list Label) (w : World) :
  run (l :: ls) w =
  match step l w with
  | Some w' => run ls w'
  | None => None
  end.
Proof. reflexivity. Qed.

Lemma step_callStop (w : World) : step callStop w = Some (stop w).
Proof. reflexivity. Qed.

Lemma release_run (s : World) (r : Recognizer) (d t0 : Z) :
  recognizer (vosk s) = Some r ->
  mainQueue s = [] ->
  delayed s = [(t0 + 500, releaseRecognizer)] ->
  now s = t0 ->
  0 <= d ->
  (d < 500 -> run [clockAdvances d; delayElapses] s = None) /\
  (500 <= d ->
   exists w',
     run [clockAdvances d; delayElapses; mainNext] s = Some w' /\
     inputTap (vosk w') = inputTap (vosk s) /\
     recognizer (vosk w') = None /\
     freed w' = address r :: freed s /\
     decoding w' = decoding s /\
     processingQueue w' = processingQueue s).
Proof.
  destruct s as [[m rc last t l c tap running] ev mq pq dc ts ds n f a tc clock].
  cbn [vosk recognizer mainQueue delayed now].
  intros -> -> -> <- D.
  assert (P : (0 <=? d) = true) by now apply Z.leb_le.
  split.
  - intros Lt.
    assert (E : (clock + 500 <=? clock + d) = false) by (apply Z.leb_gt; lia).
    cbn -[Z.add Z.leb]. rewrite P. cbn -[Z.add Z.leb]. now rewrite E.
  - intros Ge.
    assert (E : (clock + 500 <=? clock + d) = true) by (apply Z.leb_le; lia).
    cbn -[Z.add Z.leb]. rewrite P. cbn -[Z.add Z.leb]. rewrite E.
    cbn -[Z.add Z.leb]. eexists. split; [reflexivity|]. repeat split.
Qed.

Lemma reachable_after (ls : list Label) :
  match run ls initial with Some _ => True | None => False end ->
  reachable (after ls).
Proof.
  unfold after, reachable.
  destruct (run ls initial) as [w|] eqn:E; [|intros []].
  intros _. now exists ls.
Qed.

(** * The claims *)

(** C1, counterexample.  The processing queue has begun the waveform call
    on recognizer 0 when [stop] is called; 500 ms later the main queue
    frees recognizer 0, while the waveform call on it has not returned.
    The call need not be a long one: with two buffers admitted before the
    stop, the second call begins after the stop and is the one in progress
    when the delay ends. *)
Lemma release_during_decode_counterexample :
  ~ drained_before_release /\
  decoding (after releaseDuringDecode)
    = Some (mkRecognizer 0 1 48000 None, someBuffer) /\
  freed (after releaseDuringDecode) = [O] /\
  recognizer (vosk (after releaseDuringDecode)) = None /\
  decoding (after releaseDuringBacklog)
    = Some (mkRecognizer 0 1 48000 None, someBuffer) /\
  freed (after releaseDuringBacklog) = [O].
Proof.
  split; [|vm_compute; repeat split].
  intros H.
  apply (H (after releaseDuringDecode)
           (reachable_after releaseDuringDecode I)
           (mkRecognizer 0 1 48000 None) someBuffer).
  - vm_compute. reflexivity.
  - vm_compute. left. reflexivity.
Qed.

(** C1, amended.  The shutdown is ordered by a fixed delay, not by a
    barrier with the processing queue.  [stopInternal], for a [stop] as
    for a forced stop, removes the tap at once and frees nothing: the
    recognizer is still held when it returns, the processing queue and
    the waveform call in progress are left as they are, and one block is
    left to be submitted to the main queue 500 ms later.  That block frees
    the recognizer held when it runs and sets the field to nil (and does
    nothing when the field is nil).  After a [stop] the block cannot be
    submitted before 500 ms have passed; once they have, it is submitted
    and run whatever the processing queue is doing, a waveform call in
    progress included.  The only protection of a decode call is the pair
    of guards at the start of [recognizeData]: when they run while
    [isCleaningUp] is set or while the recognizer is nil, the decoder is
    not called and [(nil, false)] is returned. *)
Theorem release_after_fixed_delay (w : World) (r : Recognizer) (d : Z) :
  recognizer (vosk w) = Some r ->
  mainQueue w = [] ->
  delayed w = [] ->
  0 <= d ->
  (forall withoutEvents u,
     inputTap (vosk (stopInternal withoutEvents u)) = None /\
     heap (stopInternal withoutEvents u) = heap u /\
     mainQueue (stopInternal withoutEvents u) = mainQueue u /\
     processingQueue (stopInternal withoutEvents u) = processingQueue u /\
     decoding (stopInternal withoutEvents u) = decoding u /\
     delayed (stopInternal withoutEvents u)
       = delayed u ++ [(now u + 500, releaseRecognizer)]) /\
  (forall u,
     runMainBlock releaseRecognizer u =
     match recognizer (vosk u) with
     | Some held => on_vosk (set_recognizer None)
                            (set_freed (address held :: freed u) u)
     | None => u
     end) /\
  (d < 500 -> run [callStop; clockAdvances d; delayElapses] w = None) /\
  (500 <= d ->
   exists w',
     run [callStop; clockAdvances d; delayElapses; mainNext] w = Some w' /\
     inputTap (vosk w') = None /\
     recognizer (vosk w') = None /\
     freed w' = address r :: freed w /\
     decoding w' = decoding w /\
     processingQueue w' = processingQueue w) /\
  (forall buffer a u,
     isCleaningUp (vosk u) = true \/ recognizer (vosk u) = None ->
     recognizeData_guards buffer u = None /\
     recognizeData buffer a u = (None, false)).
Proof.
  intros R MQ DL D.
  destruct (stop_queues w) as (T & H & M & P & De & N & Dy).
  rewrite MQ in M. rewrite DL in Dy. cbn [app] in Dy.
  assert (Hr : recognizer (vosk (stop w)) = Some r).
  { rewrite <- R. exact (f_equal (fun h => fst (fst h)) H). }
  assert (Hf : freed (stop w) = freed w)
    by exact (f_equal (fun h => snd (fst h)) H).
  destruct (release_run (stop w) r d (now w) Hr M Dy N D) as (Early & Late).
  split; [|split; [|split; [|split]]].
  - intros withoutEvents u.
    destruct (stopInternal_queues withoutEvents u) as (A & B & C & E & F & _ & G).
    repeat split; assumption.
  - intros u. reflexivity.
  - intros Lt. rewrite run_cons, step_callStop. now apply Early.
  - intros Ge. rewrite run_cons, step_callStop.
    destruct (Late Ge) as (w' & Run & A & B & C & E & F).
    exists w'. split; [exact Run|].
    rewrite A, C, E, F, T, Hf, De, P. repeat split. exact B.
  - intros buffer a u G.
    assert (E : recognizeData_guards buffer u = None).
    { unfold recognizeData_guards.
      destruct G as [-> | ->]; [reflexivity|].
      destruct (isCleaningUp (vosk u)); reflexivity. }
    split; [exact E|]. unfold recognizeData. now rewrite E.
Qed.

Lemma release_after_fixed_delay_witness :
  recognizer (vosk decodingWorld) = Some (mkRecognizer 0 1 48000 None) /\
  decoding decodingWorld = Some (mkRecognizer 0 1 48000 None, someBuffer) /\
  exists w',
    run [callStop; clockAdvances 500; delayElapses; mainNext] decodingWorld
      = Some w' /\
    freed w' = [O] /\
    decoding w' = Some (mkRecognizer 0 1 48000 None, someBuffer).
Proof.
  split; [vm_compute; reflexivity|]. split; [vm_compute; reflexivity|].
  destruct (release_after_fixed_delay decodingWorld
              (mkRecognizer 0 1 48000 None) 500
              ltac:(vm_compute; reflexivity) ltac:(vm_compute; reflexivity)
              ltac:(vm_compute; reflexivity) ltac:(discriminate))
    as (_ & _ & _ & H & _).
  destruct (H ltac:(discriminate)) as (w' & Run & _ & _ & F & Dc & _).
  exists w'. split; [exact Run|]. split.
  - rewrite F. vm_compute. reflexivity.
  - rewrite Dc. vm_compute. reflexivity.
Defined.

(** C2. A [stop()] taken while the engine is running and a listener is
    subscribed emits exactly the event onFinalResult(p) when the retained
    result holds a non-empty partial text p, and no onFinalResult when the
    retained partial is empty or absent; a natural final, which the decoder
    reports without a partial field, leaves nothing to report once it has
    been retained. *)
Theorem stop_reports_pending_partial (w : World) :
  Listening w ->
  hasListener (vosk w) = true ->
  (forall p, retainedPartial w = Some p -> p <> EmptyString ->
             emitted w (stop w) = [(onFinalResult, p)]) /\
  (retainedPartial w = None \/ retainedPartial w = Some EmptyString ->
   named onFinalResult (emitted w (stop w)) = []) /\
  (forall final t,
     partial final = None ->
     let w' := deliver (Some (resultJSON final)) true w in
     Listening w' /\ hasListener (vosk w') = true /\
     lastRecognizedResult (vosk w') = Some final /\
     named onFinalResult (emitted w' (stop w')) = [] /\
     (text final = Some t -> t <> EmptyString ->
      emitted w w' = [(onResult, t)])).
Proof.
  unfold Listening. intros R L.
  assert (S : forall u, isRunning (vosk u) = true ->
                        hasListener (vosk u) = true ->
              emitted u (stop u) =
              match retainedPartial u with
              | Some p => if isEmpty p then [] else [(onFinalResult, p)]
              | None => []
              end).
  { intros u Ru Lu. apply emitted_app. rewrite events_stop, Ru, Lu.
    reflexivity. }
  split; [|split].
  - intros p P N. rewrite (S w R L), P.
    apply isEmpty_false in N. now rewrite N.
  - intros [P|P]; rewrite (S w R L), P; reflexivity.
  - intros final t F.
    pose proof (vosk_deliver (resultJSON final) true w final eq_refl) as V.
    assert (R' : isRunning (vosk (deliver (Some (resultJSON final)) true w))
                 = true) by now rewrite V.
    assert (L' : hasListener (vosk (deliver (Some (resultJSON final)) true w))
                 = true) by now rewrite V.
    split; [exact R'|]. split; [exact L'|]. split; [now rewrite V|]. split.
    + rewrite (S _ R' L'). unfold retainedPartial. rewrite V. cbn.
      now rewrite F.
    + intros T N. apply emitted_app.
      rewrite (events_deliver (resultJSON final) true w final eq_refl), L, T.
      apply isEmpty_false in N. now rewrite N.
Qed.

Lemma stop_reports_pending_partial_witness :
  let w := after (listeningTrace ++ hears (partialAnswer "turn on")) in
  Listening w /\ hasListener (vosk w) = true /\
  emitted w (stop w) = [(onFinalResult, "turn on"%string)].
Proof.
  split; [reflexivity|]. split; [reflexivity|].
  apply (proj1 (stop_reports_pending_partial
                  (after (listeningTrace ++ hears (partialAnswer "turn on")))
                  eq_refl eq_refl)).
  - reflexivity.
  - discriminate.
Defined.

(** C3.  The code at the failing input.  [start] only submits to the main
    queue the block that schedules the timer.  When [stop] is called
    before the main queue has run it, there is no timer to invalidate yet;
    the block then schedules the timer, which fires 5 s later and sends
    onTimeout to a session stopped long before: the claim, that a [stop]
    called first cancels the timer, fails on this run. *)
Lemma stop_before_timer_scheduled :
  ~ stop_first_silences_timer 5000 /\
  events (after (loadedTrace ++
                 [startWithTimeout 5000; callStop; mainNext;
                  clockAdvances 5000; timerFires 0; processingNext]))
    = [(onTimeout, EmptyString)].
Proof.
  split; [|vm_compute; reflexivity].
  intros H.
  assert (R : run (loadedTrace ++ startWithTimeout 5000 :: [] ++ callStop ::
                   [mainNext; clockAdvances 5000; timerFires O; processingNext])
                  initial
              = Some (after (loadedTrace ++
                             [startWithTimeout 5000; callStop; mainNext;
                              clockAdvances 5000; timerFires O;
                              processingNext])))
    by (vm_compute; reflexivity).
  destruct (H [] [mainNext; clockAdvances 5000; timerFires O; processingNext]
              _ eq_refl eq_refl R) as [F _].
  discriminate F.
Qed.

(** What the code does achieve about the timeout.  The block the timer
    submits when it fires runs the same [stopInternal] as [stop], with
    events disabled: it leaves the world as [stopInternal] without the
    flag would, apart from the log, and sends exactly one event,
    onTimeout, hence no onFinalResult.  And a [stop] called while the
    object holds a scheduled timer invalidates that timer, which never
    fires in any continuation of the run. *)
Theorem timeout_stops_without_final_result (w : World) (i : nat) :
  reachable w ->
  timeoutTimer (vosk w) = Some i ->
  (forall u,
     timeoutStopBlock u = sendEvent onTimeout EmptyString (stopInternal true u) /\
     set_events [] (timeoutStopBlock u) = set_events [] (stopInternal false u) /\
     emitted u (timeoutStopBlock u) = [(onTimeout, EmptyString)] /\
     named onFinalResult (emitted u (timeoutStopBlock u)) = []) /\
  timeoutTimer (vosk (stop w)) = None /\
  timerDue i (stop w) = false /\
  (forall ls w', run (callStop :: ls) w = Some w' -> ~ In (timerFires i) ls).
Proof.
  intros R T.
  assert (E : forall u,
            emitted u (timeoutStopBlock u) = [(onTimeout, EmptyString)]).
  { intros u. apply emitted_app.
    now destruct (frame_timeoutStopBlock u) as (_ & _ & E). }
  assert (G : timer_gone i (stop w)).
  { destruct (frame_stop w) as (_ & C).
    apply clockwork_eq in C as (Ctm & Cc & _).
    unfold timer_gone. rewrite Ctm, Cc, T. split.
    - now apply (timer_known_reachable w R).
    - intros p I.
      now apply (proj2 (timers_invalidate (Some i) w p I) i). }
  split; [|split; [|split]].
  - intros u. split; [reflexivity|]. split; [|split].
    + unfold timeoutStopBlock, stopInternal.
      destruct u as [[m rc last t l c tap running] ev mq pq d ts ds n f a tc
                     clock].
      destruct running, l, last as [[[p|] tx]|], t;
        try destruct (isEmpty p) eqn:Ep;
        cbn -[filter]; rewrite ?Ep; reflexivity.
    + apply E.
    + now rewrite E.
  - destruct (frame_stop w) as (_ & C).
    now apply clockwork_eq in C as (_ & _ & Ct).
  - now apply timer_gone_not_due.
  - intros ls w' Run. cbn [run step] in Run.
    exact (timer_gone_forever i ls (stop w) w' G Run).
Qed.

Lemma timeout_stops_without_final_result_witness :
  let w := after (loadedTrace ++ [startWithTimeout 5000; mainNext]) in
  timeoutTimer (vosk w) = Some O /\
  timerDue O (set_now 5000 w) = true /\
  timerDue O (set_now 5000 (stop w)) = false /\
  ~ In (timerFires O) [clockAdvances 5000; delayElapses; mainNext].
Proof.
  split; [reflexivity|]. split; [reflexivity|]. split; [reflexivity|].
  apply (proj2 (proj2 (proj2
           (timeout_stops_without_final_result
              (after (loadedTrace ++ [startWithTimeout 5000; mainNext])) O
              (reachable_after
                 (loadedTrace ++ [startWithTimeout 5000; mainNext]) I)
              eq_refl)))
         [clockAdvances 5000; delayElapses; mainNext]
         (after (loadedTrace ++ [startWithTimeout 5000; mainNext; callStop;
                                 clockAdvances 5000; delayElapses; mainNext]))).
  vm_compute. reflexivity.
Defined.

(** C4, counterexample.  The decoder answers the partial text "hel", then
    an empty partial (silence), then "hel" again.  The last partial text
    emitted is "hel" when the third result arrives, and onPartialResult
    is raised for it all the same: the empty partial was retained, and the
    comparison is made with what was retained. *)
Lemma partial_compared_with_last_emitted_counterexample :
  let w := after (listeningTrace ++ hears (partialAnswer "hel")
                                 ++ hears (partialAnswer EmptyString)) in
  events w = [(onPartialResult, "hel"%string)] /\
  ~ raised_iff_differs_from_last_emitted w "hel".
Proof.
  split; [reflexivity|].
  intros [H _]. apply H; reflexivity.
Qed.

(** C4, amended.  With a listener subscribed, a non-final result with
    non-empty partial text raises onPartialResult(text) if and only if the
    text differs from the partial text of the result retained last,
    whatever that result was (a final, or an empty partial, holds no such
    text); the result is then retained, so that a second non-final result
    with the same partial text raises nothing. *)
Theorem partial_raised_iff_differs_from_retained (w : World) (r : VoskResult)
    (p : string) :
  hasListener (vosk w) = true ->
  partial r = Some p ->
  p <> EmptyString ->
  (emitted w (deliver (Some (resultJSON r)) false w) = [(onPartialResult, p)]
   <-> retainedPartial w <> Some p) /\
  (emitted w (deliver (Some (resultJSON r)) false w) = []
   <-> retainedPartial w = Some p) /\
  retainedPartial (deliver (Some (resultJSON r)) false w) = Some p /\
  (forall r', partial r' = Some p ->
     emitted (deliver (Some (resultJSON r)) false w)
             (deliver (Some (resultJSON r')) false
                      (deliver (Some (resultJSON r)) false w)) = []).
Proof.
  intros L P N. apply isEmpty_false in N.
  assert (E : forall u r0, hasListener (vosk u) = true -> partial r0 = Some p ->
            emitted u (deliver (Some (resultJSON r0)) false u) =
            match retainedPartial u with
            | Some q => if String.eqb q p then [] else [(onPartialResult, p)]
            | None => [(onPartialResult, p)]
            end).
  { intros u r0 Lu Pu. apply emitted_app.
    rewrite (events_deliver (resultJSON r0) false u r0 eq_refl), Lu, Pu, N.
    reflexivity. }
  pose proof (vosk_deliver (resultJSON r) false w r eq_refl) as V.
  assert (K : retainedPartial (deliver (Some (resultJSON r)) false w) = Some p).
  { unfold retainedPartial. rewrite V. exact P. }
  rewrite (E w r L P).
  split; [|split; [|split]].
  - destruct (retainedPartial w) as [q|]; [|split; congruence].
    destruct (String.eqb_spec q p); split; congruence.
  - destruct (retainedPartial w) as [q|]; [|split; congruence].
    destruct (String.eqb_spec q p); split; congruence.
  - exact K.
  - intros r' P'. rewrite E; trivial.
    + rewrite K, String.eqb_refl. reflexivity.
    + now rewrite V.
Qed.

Lemma partial_raised_iff_differs_from_retained_witness :
  let w := after listeningTrace in
  emitted w (deliver (Some (resultJSON (mkVoskResult (Some "hel"%string) None)))
                     false w) = [(onPartialResult, "hel"%string)].
Proof.
  apply (proj1 (partial_raised_iff_differs_from_retained
                  (after listeningTrace)
                  (mkVoskResult (Some "hel"%string) None) "hel"
                  eq_refl eq_refl ltac:(discriminate))).
  discriminate.
Defined.

(** C5. No event that carries recognised text carries an empty one.  The
    result block sends onResult only for a completed result whose text is
    not empty and onPartialResult only for a result that is not completed
    and whose partial text is not empty; [stopInternal] sends only
    onFinalResult, only with events allowed, and only with the retained
    partial text when it is not empty; and in every reachable world the
    body of every onResult, onPartialResult and onFinalResult event of the
    log is not empty.  (onTimeout has no text: its body is the empty
    placeholder.) *)
Theorem recognised_text_never_empty :
  (forall result completed w e,
     In e (emitted w (deliver result completed w)) ->
     exists r t,
       match result with Some j => decodeVoskResult j | None => None end
         = Some r /\
       t <> EmptyString /\
       ((e = (onResult, t) /\ completed = true /\ text r = Some t) \/
        (e = (onPartialResult, t) /\ completed = false /\ partial r = Some t))) /\
  (forall withoutEvents w e,
     In e (emitted w (stopInternal withoutEvents w)) ->
     exists p, e = (onFinalResult, p) /\ p <> EmptyString /\
               retainedPartial w = Some p /\ withoutEvents = false) /\
  (forall w, reachable w ->
     forall name body,
       In (name, body) (events w) ->
       name = onResult \/ name = onPartialResult \/ name = onFinalResult ->
       body <> EmptyString).
Proof.
  split; [|split].
  - intros result completed w e.
    destruct result as [[r|raw]|];
      [|rewrite events_deliver_dropped; trivial;
        rewrite (emitted_same w w eq_refl); intros []..].
    rewrite (emitted_app _ _ _
               (events_deliver (resultJSON r) completed w r eq_refl)).
    destruct (hasListener (vosk w)); [|intros []].
    destruct completed.
    + destruct (text r) as [tx|] eqn:T; [|intros []].
      destruct (isEmpty tx) eqn:E; [intros []|].
      intros [<-|[]]. exists r, tx. apply isEmpty_false in E. auto 6.
    + destruct (partial r) as [p|] eqn:P; [|intros []].
      destruct (isEmpty p) eqn:E; [intros []|].
      apply isEmpty_false in E.
      assert (G : (onPartialResult, p) = e -> exists r0 t,
                 decodeVoskResult (resultJSON r) = Some r0 /\
                 t <> EmptyString /\
                 ((e = (onResult, t) /\ false = true /\ text r0 = Some t) \/
                  (e = (onPartialResult, t) /\ false = false /\
                   partial r0 = Some t))).
      { intros <-. exists r, p. auto 6. }
      destruct (retainedPartial w) as [q|];
        [destruct (String.eqb q p); [intros []|]|];
        (intros [H|[]]; exact (G H)).
  - intros withoutEvents w e.
    rewrite (emitted_app _ _ _ (events_stopInternal withoutEvents w)).
    destruct (isRunning (vosk w) && hasListener (vosk w)); [|intros []].
    destruct withoutEvents; [intros []|]. cbn [andb negb].
    destruct (retainedPartial w) as [p|]; [|intros []].
    destruct (isEmpty p) eqn:E; [intros []|].
    intros [<-|[]]. exists p. apply isEmpty_false in E. auto.
  - intros w R name body I N.
    pose proof (events_textual w R) as F.
    rewrite Forall_forall in F. specialize (F _ I). unfold textual in F.
    cbn [fst snd] in F. destruct N as [->|[->| ->]]; exact F.
Qed.

Lemma recognised_text_never_empty_witness :
  let w := after (listeningTrace ++ hears (partialAnswer "hel")
                                 ++ hears (partialAnswer EmptyString)
                                 ++ hears (finalAnswer EmptyString)) in
  events w = [(onPartialResult, "hel"%string)] /\
  "hel"%string <> EmptyString.
Proof.
  split; [reflexivity|].
  apply (proj2 (proj2 recognised_text_never_empty)
               (after (listeningTrace ++ hears (partialAnswer "hel")
                                      ++ hears (partialAnswer EmptyString)
                                      ++ hears (finalAnswer EmptyString)))
               (reachable_after
                  (listeningTrace ++ hears (partialAnswer "hel")
                                  ++ hears (partialAnswer EmptyString)
                                  ++ hears (finalAnswer EmptyString)) I)
               onPartialResult "hel"%string).
  - left. reflexivity.
  - right. left. reflexivity.
Defined.

(** C6, counterexample.  [start] with a timeout of 0 (and of -5): the main
    queue schedules the timer, the timer fires at once, the processing
    queue runs the forced stop and onTimeout is sent. *)
Lemma zero_timeout_fires_counterexample :
  ~ never_times_out (loadedTrace ++ [startWithTimeout 0]) /\
  ~ never_times_out (loadedTrace ++ [startWithTimeout (-5)]) /\
  events (after (loadedTrace ++ [startWithTimeout 0; mainNext; timerFires 0;
                                 processingNext]))
    = [(onTimeout, EmptyString)].
Proof.
  split; [|split].
  - intros H.
    assert (R : run ((loadedTrace ++ [startWithTimeout 0]) ++
                     [mainNext; timerFires O; processingNext]) initial
                = Some (after (loadedTrace ++ [startWithTimeout 0; mainNext;
                                               timerFires O; processingNext])))
      by (vm_compute; reflexivity).
    apply H in R; [|reflexivity]. vm_compute in R. discriminate R.
  - intros H.
    assert (R : run ((loadedTrace ++ [startWithTimeout (-5)]) ++
                     [mainNext; timerFires O; processingNext]) initial
                = Some (after (loadedTrace ++ [startWithTimeout (-5); mainNext;
                                               timerFires O; processingNext])))
      by (vm_compute; reflexivity).
    apply H in R; [|reflexivity]. vm_compute in R. discriminate R.
  - vm_compute. reflexivity.
Qed.

(** C6, amended.  A timeout of zero or of a negative number is not read as
    "no timeout".  Like any timeout that is present it makes [start]
    submit the block that schedules the timer; the timer it schedules is
    due at once; when it fires the forced stop is submitted to the
    processing queue, and that block sends onTimeout.  Only a [start]
    whose options hold no timeout submits nothing. *)
Theorem nonpositive_timeout_arms_timer (g : option (list string)) (t : Z)
    (env : AudioSetup) (w w' : World) (v : Value) :
  t <= 0 ->
  start (Some (optionsJSON (mkVoskStartOptions g (Some t)))) env w
    = (w', resolve v) ->
  mainQueue w' = mainQueue w ++ [scheduleTimer t] /\
  (forall u,
     timeoutTimer (vosk (scheduleTimerBlock t u)) = Some (timerCount u) /\
     timers (scheduleTimerBlock t u) = timers u ++ [(timerCount u, now u)] /\
     timerDue (timerCount u) (scheduleTimerBlock t u) = true) /\
  (forall u i,
     timerDue i u = true ->
     exists u', step (timerFires i) u = Some u' /\
                processingQueue u' = processingQueue u ++ [timeoutStop]) /\
  (forall u, emitted u (timeoutStopBlock u) = [(onTimeout, EmptyString)]) /\
  (forall u u' v',
     start (Some (optionsJSON (mkVoskStartOptions g None))) env u
       = (u', resolve v') ->
     mainQueue u' = mainQueue u).
Proof.
  intros T H.
  destruct (start_resolved _ _ _ _ _ H) as (_ & _ & _ & _ & _ & _ & Q).
  split; [exact Q|]. split; [|split; [|split]].
  - intros u. unfold scheduleTimerBlock, timerInterval, timerDue. fields.
    rewrite Z.max_l by lia. rewrite Z.add_0_r.
    repeat split. rewrite existsb_app. cbn [existsb fst snd].
    rewrite Nat.eqb_refl, Z.leb_refl. cbn. apply orb_true_r.
  - intros u i D. cbn [step]. rewrite D. eexists. split; [reflexivity|].
    unfold timerBlock, invalidate. fields. reflexivity.
  - intros u. apply emitted_app. unfold timeoutStopBlock. fields.
    rewrite events_stopInternal. cbn [negb]. rewrite andb_false_r.
    now rewrite app_nil_r.
  - intros u u' v' H'.
    destruct (start_resolved _ _ _ _ _ H') as (_ & _ & _ & _ & _ & _ & Q').
    cbn in Q'. now rewrite app_nil_r in Q'.
Qed.

Lemma nonpositive_timeout_arms_timer_witness :
  let r := start (Some (optionsJSON (mkVoskStartOptions None (Some (-5)))))
                 quietSetup (after loadedTrace) in
  -5 <= 0 /\ mainQueue (fst r) = [scheduleTimer (-5)].
Proof.
  split; [lia|].
  apply (proj1 (nonpositive_timeout_arms_timer None (-5) quietSetup
                  (after loadedTrace)
                  (fst (start (Some (optionsJSON
                                       (mkVoskStartOptions None (Some (-5)))))
                              quietSetup (after loadedTrace)))
                  (VString "Recognizer successfully started")
                  ltac:(lia) eq_refl)).
Defined.

(** C7. [start] called while no model is loaded rejects with code "start"
    and message "No model loaded", and leaves the whole world as it was:
    no recognizer, no tap, no timer, no block queued, no event. *)
Theorem start_without_model (rawOptions : option RawOptions)
    (env : AudioSetup) (w : World) :
  currentModel (vosk w) = None ->
  start rawOptions env w = (w, reject "start" "No model loaded").
Proof.
  intros H. now apply start_guard.
Qed.

Lemma start_without_model_witness :
  currentModel (vosk initial) = None /\
  start None quietSetup initial = (initial, reject "start" "No model loaded").
Proof.
  split; [reflexivity | apply (start_without_model None quietSetup initial)].
  reflexivity.
Defined.

(** C8, counterexample.  The audio session is configured but the PCM
    format cannot be built: [start] leaves through the [guard] with a
    rejection only, and the subscribed listener gets no onError event. *)
Lemma format_failure_not_reported_counterexample :
  ~ failure_rolled_back_and_reported None
      (mkAudioSetup None None (Some 48000) 1 false None true) (after loadedTrace).
Proof.
  intros (_ & _ & _ & H). destruct (H eq_refl) as [body []].
Qed.

(** C8, amended.  With a model loaded, a [start] in which the audio
    session setup ([setCategory], [setActive]) or the encoding of the
    grammar throws goes through the [catch] block: the recognizer held by
    the object, if any, is freed and the field set back to nil, the call
    is rejected with code "start" and the description of the error, a
    subscribed listener gets onError, nothing else changes, and a session
    that was at rest is at rest again.  When the PCM format cannot be built
    the call is only rejected ("Unable to create audio format"): the world
    is left as it was and no event is sent. *)
Theorem start_failure_rolls_back (rawOptions : option RawOptions)
    (env : AudioSetup) (w : World) :
  currentModel (vosk w) <> None ->
  (forall e,
     setCategory env = Some e \/
     (setCategory env = None /\ setActive env = Some e) \/
     (setCategory env = None /\ setActive env = None /\ pcmFormat env = true /\
      encodeGrammar env = Some e /\
      exists p g tm,
        rawOptions = Some (optionsJSON (mkVoskStartOptions (Some (p :: g)) tm))) ->
     let r := start rawOptions env w in
     snd r = reject "start" e /\
     recognizer (vosk (fst r)) = None /\
     freed (fst r) = match recognizer (vosk w) with
                     | Some old => address old :: freed w
                     | None => freed w
                     end /\
     emitted w (fst r) =
       (if hasListener (vosk w)
        then [(onError, ("Unable to start AVAudioEngine: " ++ e)%string)]
        else []) /\
     set_recognizer None (vosk (fst r)) = set_recognizer None (vosk w) /\
     mainQueue (fst r) = mainQueue w /\ timers (fst r) = timers w /\
     permissionRequests (fst r) = permissionRequests w /\
     (Loaded w -> Loaded (fst r))) /\
  (setCategory env = None -> setActive env = None -> pcmFormat env = false ->
   start rawOptions env w = (w, reject "start" "Unable to create audio format")).
Proof.
  intros M. destruct (currentModel (vosk w)) as [m|] eqn:CM; [clear M|congruence].
  split.
  - intros e H.
    assert (S : start rawOptions env w = startCatch e w).
    { unfold start. rewrite CM.
      destruct H as [H|[(H1 & H2)|(H1 & H2 & H3 & H4 & p & g & tm & ->)]].
      - now rewrite H.
      - now rewrite H1, H2.
      - rewrite H1, H2, H3, H4. reflexivity. }
    cbv zeta. rewrite S.
    destruct (startCatch_spec e w) as (A & B & C & D & E & F & _ & G & _ & I).
    set (w' := fst (startCatch e w)) in *.
    assert (E1 : currentModel (vosk w') = currentModel (vosk w))
      by exact (f_equal currentModel E).
    assert (E2 : inputTap (vosk w') = inputTap (vosk w))
      by exact (f_equal inputTap E).
    assert (E3 : isRunning (vosk w') = isRunning (vosk w))
      by exact (f_equal isRunning E).
    assert (E4 : timeoutTimer (vosk w') = timeoutTimer (vosk w))
      by exact (f_equal timeoutTimer E).
    split; [exact A|]. split; [exact B|]. split; [exact D|].
    split; [now apply emitted_app|]. split; [exact E|].
    split; [exact F|]. split; [exact G|]. split; [exact I|].
    unfold Loaded. rewrite E1, E2, E3, E4. tauto.
  - intros H1 H2 H3. unfold start. now rewrite CM, H1, H2, H3.
Qed.

Lemma start_failure_rolls_back_witness :
  let w := after loadedTrace in
  let r := start None (mkAudioSetup None (Some "session busy"%string)
                                    (Some 48000) 1 true None true) w in
  currentModel (vosk w) <> None /\
  snd r = reject "start" "session busy" /\
  recognizer (vosk (fst r)) = None /\
  emitted w (fst r) =
    [(onError, "Unable to start AVAudioEngine: session busy"%string)].
Proof.
  split; [discriminate|].
  destruct (proj1 (start_failure_rolls_back None
                     (mkAudioSetup None (Some "session busy"%string)
                                   (Some 48000) 1 true None true)
                     (after loadedTrace) ltac:(discriminate))
                  "session busy"%string
                  (or_intror (or_introl (conj eq_refl eq_refl))))
    as (A & B & _ & D & _).
  split; [exact A|]. split; [exact B|]. exact D.
Defined.

(** C9, counterexample.  With a model loaded: on Android the promise is
    resolved, not rejected; on iOS it is resolved too, and the recognizer
    and the tap exist after the denial. *)
Lemma denial_is_a_start_failure_counterexample :
  ~ denial_is_a_start_failure JS.android None quietSetup (after loadedTrace) /\
  ~ denial_is_a_start_failure JS.ios None quietSetup (after loadedTrace) /\
  (let r := JS.start JS.ios false None quietSetup (after loadedTrace) in
   snd r = resolve (VString "Recognizer successfully started") /\
   recognizer (vosk (permissionAnswered false false (fst r))) =
     Some (mkRecognizer 0 1 48000 None) /\
   inputTap (vosk (permissionAnswered false false (fst r))) =
     Some (mkTap 4800 48000 1)).
Proof.
  split; [|split].
  - intros ((code & message & H) & _). discriminate H.
  - intros ((code & message & H) & _). discriminate H.
  - repeat split.
Qed.

(** C9, amended.  A denied microphone is never reported as a failure of
    [start].  Where the wrapper asks for the permission (Android) and it is
    denied, the native module is not called, nothing is created and the
    promise resolves with undefined.  On iOS the wrapper always goes on to
    the native [start], which has created the recognizer (when the decoder
    returned one), installed the tap and resolved its promise before the
    permission is answered; a denial then leaves both in place and only
    the audio engine is not started. *)
Theorem permission_denied_not_reported (rawOptions : option RawOptions)
    (env : AudioSetup) (w : World) :
  JS.start JS.android false rawOptions env w = (w, resolve VUndefined) /\
  (forall granted,
     JS.start JS.ios granted rawOptions env w = start rawOptions env w) /\
  (forall w' v engineStarts,
     start rawOptions env w = (w', resolve v) ->
     v = VString "Recognizer successfully started" /\
     (recognizerNew env = true ->
      recognizer (vosk (permissionAnswered false engineStarts w')) <> None) /\
     inputTap (vosk (permissionAnswered false engineStarts w')) <> None /\
     isRunning (vosk (permissionAnswered false engineStarts w'))
       = isRunning (vosk w) /\
     events (permissionAnswered false engineStarts w') = events w).
Proof.
  split; [reflexivity|]. split; [reflexivity|].
  intros w' v engineStarts H.
  destruct (start_resolved _ _ _ _ _ H) as (A & B & C & D & E & _).
  unfold permissionAnswered. fields.
  repeat split; trivial.
  intros N. rewrite N in B. destruct B as (r & B & _). congruence.
Qed.

Lemma permission_denied_not_reported_witness :
  let r := start None quietSetup (after loadedTrace) in
  snd r = resolve (VString "Recognizer successfully started") /\
  recognizer (vosk (permissionAnswered false false (fst r))) <> None /\
  inputTap (vosk (permissionAnswered false false (fst r))) <> None.
Proof.
  destruct (proj2 (proj2 (permission_denied_not_reported
                            None quietSetup (after loadedTrace)))
                  (fst (start None quietSetup (after loadedTrace)))
                  (VString "Recognizer successfully started") false eq_refl)
    as (_ & B & C & _).
  split; [reflexivity|]. split; [exact (B eq_refl) | exact C].
Defined.

(** C10. After [loadModel] the session holds exactly what the initializer
    returned for this call: the new model when it succeeded, nothing when
    it threw, whatever was loaded before.  In the second case the promise
    is rejected with code "load_model" and the next [start] rejects with
    "No model loaded". *)
Theorem loadModel_replaces_model (VoskModel_init : string -> option VoskModel)
    (name : string) (w : World) :
  let r := loadModel VoskModel_init name w in
  currentModel (vosk (fst r)) = VoskModel_init name /\
  match VoskModel_init name with
  | Some _ => snd r = resolve VTrue
  | None =>
      snd r = reject "load_model" "Failed to load model" /\
      forall rawOptions env,
        start rawOptions env (fst r) = (fst r, reject "start" "No model loaded")
  end.
Proof.
  unfold loadModel.
  destruct (VoskModel_init name) as [m|] eqn:E.
  - split; [|reflexivity]. destruct (currentModel (vosk w)); reflexivity.
  - assert (N : currentModel
                  (vosk match currentModel (vosk w) with
                        | Some _ => on_vosk (set_currentModel None) w
                        | None => w
                        end) = None).
    { destruct (currentModel (vosk w)) eqn:C; [reflexivity | exact C]. }
    cbn [fst snd]. split; [exact N|]. split; [reflexivity|].
    intros rawOptions env. now apply start_guard.
Qed.

(** * Beyond the claims *)

(** ** The shape of what each method leaves *)

Lemma stopInternal_shape (withoutEvents : bool) (w : World) :
  stopInternal withoutEvents w =
  mainAsyncAfter 500 releaseRecognizer
    (on_vosk atRest
       (invalidate (timeoutTimer (vosk w))
          (set_events (events w ++ finalEvents withoutEvents w) w))).
Proof.
  unfold stopInternal, finalEvents, retainedPartial, atRest.
  destruct w as [[m rc last t l c tap running] ev mq pq d ts ds n f a tc clock].
  destruct running, l, withoutEvents, last as [[[p|] tx]|], t;
    try destruct (isEmpty p) eqn:Ep;
    cbn -[filter Z.add]; rewrite ?Ep; cbn -[filter Z.add];
    rewrite ?app_nil_r; reflexivity.
Qed.

Lemma stop_shape (w : World) :
  stop w =
  mainAsyncAfter 500 releaseRecognizer
    (on_vosk (fun v => set_isCleaningUp false (atRest v))
       (invalidate (timeoutTimer (vosk w))
          (set_events (events w ++ finalEvents false w) w))).
Proof.
  unfold stop. cbv zeta. rewrite stopInternal_shape.
  unfold finalEvents, retainedPartial, atRest.
  destruct w as [[m rc last t l c tap running] ev mq pq d ts ds n f a tc clock].
  destruct t; reflexivity.
Qed.

Lemma deliver_shape (result : option ResultJSON) (completed : bool) (w : World) :
  exists es kept,
    deliver result completed w =
    set_events (events w ++ es) (on_vosk (set_lastRecognizedResult kept) w) /\
    (List.length es <= 1)%nat /\
    (hasListener (vosk w) = false -> es = []).
Proof.
  unfold deliver.
  destruct w as [[m rc last t l c tap running] ev mq pq d ts ds n f a tc clock].
  destruct result as [[r|raw]|]; cbn [decodeVoskResult];
    [|exists [], last; rewrite app_nil_r; repeat split; auto..].
  destruct completed, l, (text r) as [tx|], (partial r) as [p|],
    last as [[[q|] tq]|];
    try destruct (isEmpty tx) eqn:Ex; try destruct (isEmpty p) eqn:Ep;
    try destruct (String.eqb q p) eqn:Eq;
    cbn; rewrite ?Ex, ?Ep; cbn; rewrite ?Eq;
    first [ exists [], (Some r); rewrite app_nil_r;
            solve [repeat split; auto]
          | eexists [_], (Some r);
            solve [repeat split; auto; discriminate] ].
Qed.

Lemma start_resolved_shape (rawOptions : option RawOptions) (env : AudioSetup)
    (w w' : World) (v : Value) :
  start rawOptions env w = (w', resolve v) ->
  exists m,
    currentModel (vosk w) = Some m /\
    setCategory env = None /\ setActive env = None /\ pcmFormat env = true /\
    w' = (match readTimeout rawOptions with
          | Some t => mainAsync (scheduleTimer t)
          | None => fun u => u
          end)
           (set_permissionRequests (S (permissionRequests w))
              (on_vosk (set_inputTap
                          (Some (mkTap (negotiatedRate env / 10)
                                       (negotiatedRate env)
                                       (negotiatedChannels env))))
                 (on_vosk (set_recognizer
                             (if recognizerNew env
                              then Some (mkRecognizer (allocated w) (model m)
                                           (negotiatedRate env)
                                           (readGrammar rawOptions))
                              else None))
                    (if recognizerNew env
                     then set_allocated (S (allocated w)) w
                     else w)))).
Proof.
  unfold start, startCatch, readTimeout, readGrammar, negotiatedRate,
    negotiatedChannels.
  destruct (currentModel (vosk w)) as [m|]; [|discriminate].
  destruct (setCategory env); [discriminate|].
  destruct (setActive env); [discriminate|].
  destruct (pcmFormat env); cbn [negb]; [|discriminate].
  destruct rawOptions as [[[g tm]|]|]; cbn [grammar timeout].
  - destruct g as [[|p g]|]; [| destruct (encodeGrammar env); [discriminate|] |];
      destruct tm, (recognizerNew env); intros H; injection H as <- <-;
      exists m; repeat split.
  - destruct (recognizerNew env); intros H; injection H as <- <-;
      exists m; repeat split.
  - destruct (recognizerNew env); intros H; injection H as <- <-;
      exists m; repeat split.
Qed.

Lemma vosk_stop (w : World) :
  vosk (stop w) = set_isCleaningUp false (atRest (vosk w)).
Proof.
  rewrite stop_shape.
  destruct w as [[m rc last t l c tap running] ev mq pq d ts ds n f a tc clock].
  destruct t; reflexivity.
Qed.

(** ** [stop], [unload], [loadModel] *)

(** X1.  [stop], called in any state, leaves the session at rest: no tap, the
    engine stopped, no retained result, no timer held, the cleaning flag
    down.  It keeps the model and the listener flag, and it does not free
    the recognizer itself: the recognizer is still held when [stop]
    returns.  With a model loaded the session is Loaded. *)
Theorem stop_resets_session (w : World) :
  inputTap (vosk (stop w)) = None /\
  isRunning (vosk (stop w)) = false /\
  lastRecognizedResult (vosk (stop w)) = None /\
  timeoutTimer (vosk (stop w)) = None /\
  isCleaningUp (vosk (stop w)) = false /\
  currentModel (vosk (stop w)) = currentModel (vosk w) /\
  hasListener (vosk (stop w)) = hasListener (vosk w) /\
  recognizer (vosk (stop w)) = recognizer (vosk w) /\
  freed (stop w) = freed w /\
  (currentModel (vosk w) <> None -> Loaded (stop w)).
Proof.
  rewrite stop_shape. unfold Loaded.
  destruct w as [[m rc last t l c tap running] ev mq pq d ts ds n f a tc clock].
  destruct t; cbn -[filter Z.add]; repeat split; auto.
Qed.

Lemma stop_resets_session_witness :
  let w := after (listeningTrace ++ hears (partialAnswer "turn on")) in
  currentModel (vosk w) <> None /\ Loaded (stop w).
Proof.
  split; [discriminate|].
  apply (stop_resets_session
           (after (listeningTrace ++ hears (partialAnswer "turn on")))).
  discriminate.
Defined.

(** X2.  A second [stop] right after a [stop] sends no event and leaves the
    object and the timers as the first one left them; all it adds is one
    more release block, due 500 ms after the call. *)
Theorem stop_twice (w : World) :
  emitted (stop w) (stop (stop w)) = [] /\
  vosk (stop (stop w)) = vosk (stop w) /\
  timers (stop (stop w)) = timers (stop w) /\
  freed (stop (stop w)) = freed (stop w) /\
  delayed (stop (stop w)) = delayed (stop w) ++ [(now w + 500, releaseRecognizer)].
Proof.
  split.
  - apply emitted_same. rewrite (events_stop (stop w)).
    rewrite (vosk_stop w). apply app_nil_r.
  - rewrite (stop_shape (stop w)). rewrite (stop_shape w).
    destruct w as [[m rc last t l c tap running] ev mq pq d ts ds n f a tc
                   clock].
    destruct t; cbn -[filter Z.add]; repeat split.
Qed.

(** X3.  [stop] and [unload] called while the engine is not running send no
    event, whatever result is still retained. *)
Theorem stop_when_not_running (w : World) :
  isRunning (vosk w) = false ->
  emitted w (stop w) = [] /\ emitted w (unload w) = [].
Proof.
  intros R.
  assert (E : events (stop w) = events w).
  { rewrite events_stop, R. apply app_nil_r. }
  split; apply emitted_same; [exact E|].
  rewrite unload_stop, events_on_vosk. exact E.
Qed.

Lemma stop_when_not_running_witness :
  let w := after (loadedTrace ++ [callStart None quietSetup;
                                  permissionAnswer false false]) in
  isRunning (vosk w) = false /\ emitted w (stop w) = [].
Proof.
  split; [reflexivity|].
  apply (stop_when_not_running
           (after (loadedTrace ++ [callStart None quietSetup;
                                   permissionAnswer false false]))).
  reflexivity.
Defined.

(** X4.  [unload] is [stop] followed by the release of the model: it sends what
    [stop] sends, leaves the object as [stop] does but without a model,
    does not free the recognizer itself, and a [start] that follows is
    rejected with "No model loaded". *)
Theorem unload_releases_model (w : World) :
  currentModel (vosk (unload w)) = None /\
  vosk (unload w) = set_currentModel None (vosk (stop w)) /\
  emitted w (unload w) = emitted w (stop w) /\
  heap (unload w) = heap w /\
  delayed (unload w) = delayed w ++ [(now w + 500, releaseRecognizer)] /\
  forall rawOptions env,
    start rawOptions env (unload w) = (unload w, reject "start" "No model loaded").
Proof.
  rewrite unload_stop.
  destruct (frame_model None (stop w)) as (H & _ & E).
  destruct (frame_stop w) as (H' & _).
  split; [reflexivity|]. split; [reflexivity|].
  split; [unfold emitted; now rewrite E|].
  split; [now rewrite H|]. split.
  - rewrite stop_shape.
    destruct w as [[m rc last t l c tap running] ev mq pq d ts ds n f a tc
                   clock].
    destruct t; reflexivity.
  - intros rawOptions env. now apply start_guard.
Qed.

(** X5.  [loadModel] touches nothing but [currentModel]: it neither stops a
    running session nor frees its recognizer, which stays bound to the
    model it was created with. *)
Theorem loadModel_keeps_session (VoskModel_init : string -> option VoskModel)
    (name : string) (w : World) :
  on_vosk (set_currentModel None) (fst (loadModel VoskModel_init name w)) =
  on_vosk (set_currentModel None) w.
Proof.
  unfold loadModel.
  destruct w as [[m rc last t l c tap running] ev mq pq d ts ds n f a tc clock].
  destruct m, (VoskModel_init name); reflexivity.
Qed.

(** ** The options and the audio format of [start] *)

(** X6.  Options that do not decode are ignored, and an empty grammar is no
    grammar: in both cases [start] does what it does without them, and as
    long as no grammar is handed to the decoder a failing grammar encoder
    cannot make [start] fail. *)
Theorem start_ignores_unusable_options (env : AudioSetup) (w : World) :
  start (Some optionsMalformed) env w = start None env w /\
  (forall tm,
     start (Some (optionsJSON (mkVoskStartOptions (Some []) tm))) env w =
     start (Some (optionsJSON (mkVoskStartOptions None tm))) env w) /\
  (forall rawOptions e,
     readGrammar rawOptions = None ->
     start rawOptions
           (mkAudioSetup (setCategory env) (setActive env)
                         (inputSampleRate env) (inputChannelCount env)
                         (pcmFormat env) e (recognizerNew env)) w =
     start rawOptions env w).
Proof.
  split; [reflexivity|]. split; [reflexivity|].
  intros rawOptions e G. unfold start.
  destruct (currentModel (vosk w)); [|reflexivity].
  cbn [setCategory setActive inputSampleRate inputChannelCount pcmFormat
       encodeGrammar recognizerNew].
  destruct (setCategory env); [reflexivity|].
  destruct (setActive env); [reflexivity|].
  destruct (pcmFormat env); [|reflexivity]. cbn [negb].
  destruct rawOptions as [[[[[|p g]|] tm]|]|]; cbn [grammar timeout];
    try reflexivity.
  discriminate G.
Qed.

Lemma start_ignores_unusable_options_witness :
  start (Some (optionsJSON (mkVoskStartOptions (Some []) None)))
        (mkAudioSetup None None (Some 48000) 1 true
                      (Some "cannot encode"%string) true)
        (after loadedTrace) =
  start (Some (optionsJSON (mkVoskStartOptions (Some []) None)))
        quietSetup (after loadedTrace).
Proof.
  apply (proj2 (proj2 (start_ignores_unusable_options quietSetup
                         (after loadedTrace)))
               (Some (optionsJSON (mkVoskStartOptions (Some []) None)))
               (Some "cannot encode"%string) eq_refl).
Defined.

(** X7.  A recognizer is never created with a sample rate that is not
    positive.  A [start] that succeeds and gets a recognizer binds it to
    the loaded model, at the rate the input reports when that rate is
    positive and at 16000 Hz otherwise, with the grammar of the options
    when it is not empty; the tap is installed with a tenth of a second of
    that rate as buffer size and with at least one channel. *)
Theorem start_configures_recognizer (rawOptions : option RawOptions)
    (env : AudioSetup) (w w' : World) (v : Value) :
  start rawOptions env w = (w', resolve v) ->
  recognizerNew env = true ->
  exists m r tp,
    currentModel (vosk w) = Some m /\
    recognizer (vosk w') = Some r /\ inputTap (vosk w') = Some tp /\
    ofModel r = model m /\
    withGrammar r = readGrammar rawOptions /\
    0 < rate r /\
    (inputSampleRate env = Some (rate r) \/
     rate r = 16000 /\ forall x, inputSampleRate env = Some x -> x <= 0) /\
    tapSampleRate tp = rate r /\ bufferSize tp = rate r / 10 /\
    1 <= tapChannels tp /\
    (tapChannels tp = inputChannelCount env \/
     tapChannels tp = 1 /\ inputChannelCount env <= 0).
Proof.
  intros H N.
  destruct (start_resolved_shape _ _ _ _ _ H) as (m & M & _ & _ & _ & ->).
  rewrite N.
  exists m, (mkRecognizer (allocated w) (model m) (negotiatedRate env)
                          (readGrammar rawOptions)),
    (mkTap (negotiatedRate env / 10) (negotiatedRate env)
           (negotiatedChannels env)).
  split; [exact M|].
  split; [destruct (readTimeout rawOptions); reflexivity|].
  split; [destruct (readTimeout rawOptions); reflexivity|].
  cbn [ofModel withGrammar rate tapSampleRate bufferSize tapChannels].
  unfold negotiatedRate, negotiatedChannels.
  repeat split.
  - destruct (inputSampleRate env) as [x|]; [|lia].
    destruct (0 <? x) eqn:P; [apply Z.ltb_lt in P|]; lia.
  - destruct (inputSampleRate env) as [x|]; [|right; split; [reflexivity|discriminate]].
    destruct (0 <? x) eqn:P; [now left|]. right. split; [reflexivity|].
    intros y [= <-]. apply Z.ltb_ge in P. exact P.
  - destruct (0 <? inputChannelCount env) eqn:P; [apply Z.ltb_lt in P|]; lia.
  - destruct (0 <? inputChannelCount env) eqn:P; [now left|].
    right. apply Z.ltb_ge in P. now split.
Qed.

Lemma start_configures_recognizer_witness :
  let r := start None (mkAudioSetup None None None 0 true None true)
                 (after loadedTrace) in
  recognizer (vosk (fst r)) = Some (mkRecognizer 0 1 16000 None) /\
  inputTap (vosk (fst r)) = Some (mkTap 1600 16000 1).
Proof.
  destruct (start_configures_recognizer None
              (mkAudioSetup None None None 0 true None true)
              (after loadedTrace)
              (fst (start None (mkAudioSetup None None None 0 true None true)
                          (after loadedTrace)))
              (VString "Recognizer successfully started") eq_refl eq_refl)
    as (m & r & tp & _).
  split; reflexivity.
Defined.

(** ** [recognizeData] *)

(** X8.  [recognizeData] returns a text exactly when the session is not
    cleaning up, a recognizer is held, the buffer has 16-bit channel data
    and the decoder returned a valid string; the result is then marked
    completed exactly when the decoder's answer to the waveform was 1, so
    that any other answer, the error value -1 included, is read as a
    partial result.  In every other case it returns [(nil, false)]: it
    never reports a completed utterance without a text. *)
Theorem recognizeData_returns (buffer : AudioBuffer) (a : DecoderAnswer)
    (w : World) :
  (forall s c,
     recognizeData buffer a w = (Some s, c) <->
     isCleaningUp (vosk w) = false /\ recognizer (vosk w) <> None /\
     int16ChannelData buffer <> None /\
     cStringResult a = Some s /\ c = (endOfSpeech a =? 1)) /\
  (forall c, recognizeData buffer a w = (None, c) -> c = false) /\
  (snd (recognizeData buffer a w) = true -> endOfSpeech a = 1).
Proof.
  unfold recognizeData, recognizeData_guards, recognizeData_result.
  destruct (isCleaningUp (vosk w)), (recognizer (vosk w)) as [r|],
    (int16ChannelData buffer) as [data|], (cStringResult a) as [j|];
    cbn [fst snd]; (split; [|split]);
    try (intros s c; split;
         [intros [= <- <-]; repeat split; discriminate
         |intros (A & B & C & D & E); try discriminate; try congruence]);
    try (intros c [= <-]; reflexivity);
    try discriminate;
    try (intros E; now apply Z.eqb_eq).
Qed.

Lemma recognizeData_returns_witness :
  snd (recognizeData someBuffer (finalAnswer "hello world")
                     (after listeningTrace)) = true /\
  endOfSpeech (finalAnswer "hello world") = 1.
Proof.
  split; [reflexivity|].
  apply (proj2 (proj2 (recognizeData_returns someBuffer
                         (finalAnswer "hello world") (after listeningTrace)))).
  reflexivity.
Defined.

(** ** A [start] that follows a [stop] closely *)

(** X9.  The release block left by a [stop] frees whatever recognizer is
    held when it runs.  When [start] is called again before the 500 ms
    have passed, the recognizer it creates is the one freed: the new
    session is left with its tap installed and no recognizer. *)
Theorem restart_within_delay_loses_recognizer (rawOptions : option RawOptions)
    (env : AudioSetup) (w w1 : World) (v : Value) (d : Z) :
  mainQueue w = [] ->
  delayed w = [] ->
  readTimeout rawOptions = None ->
  recognizerNew env = true ->
  start rawOptions env (stop w) = (w1, resolve v) ->
  500 <= d ->
  exists r w',
    recognizer (vosk w1) = Some r /\ address r = allocated w /\
    run [callStop; callStart rawOptions env; clockAdvances d; delayElapses;
         mainNext] w = Some w' /\
    recognizer (vosk w') = None /\
    freed w' = address r :: freed w /\
    inputTap (vosk w') <> None.
Proof.
  intros MQ DL NT RN S Ge.
  destruct (stop_queues w) as (_ & H & M & _ & _ & N & Dy).
  rewrite MQ in M. rewrite DL in Dy. cbn [app] in Dy.
  assert (Hf : freed (stop w) = freed w)
    by exact (f_equal (fun h => snd (fst h)) H).
  assert (Ha : allocated (stop w) = allocated w)
    by exact (f_equal snd H).
  destruct (start_resolved _ _ _ _ _ S) as (_ & R & T & _ & _ & _ & Q).
  rewrite RN in R. destruct R as (r & R & A). rewrite Ha in A.
  rewrite NT, app_nil_r, M in Q.
  destruct (start_resolved_shape _ _ _ _ _ S) as (m & _ & _ & _ & _ & Sh).
  rewrite NT, RN in Sh.
  assert (K : delayed w1 = [(now w + 500, releaseRecognizer)] /\
              now w1 = now w /\ freed w1 = freed w).
  { rewrite Sh. rewrite <- Dy, <- N, <- Hf.
    destruct (stop w) as [[m0 rc last t l c tap running] ev mq pq dc ts ds n f
                          a tc clock].
    repeat split. }
  destruct K as (Dy1 & N1 & F1).
  assert (D0 : 0 <= d) by lia.
  destruct (release_run w1 r d (now w) R Q Dy1 N1 D0) as (_ & Late).
  destruct (Late Ge) as (w' & Run & A1 & B1 & C1 & _).
  exists r, w'. split; [exact R|]. split; [exact A|]. split.
  - rewrite run_cons, step_callStop, run_cons.
    cbn [step]. rewrite S. exact Run.
  - split; [exact B1|]. split; [now rewrite C1, F1|]. now rewrite A1.
Qed.

Lemma restart_within_delay_loses_recognizer_witness :
  exists w',
    run [callStop; callStart None quietSetup; clockAdvances 500; delayElapses;
         mainNext] (after listeningTrace) = Some w' /\
    recognizer (vosk w') = None /\ freed w' = [1%nat] /\
    inputTap (vosk w') <> None.
Proof.
  destruct (restart_within_delay_loses_recognizer None quietSetup
              (after listeningTrace)
              (fst (start None quietSetup (stop (after listeningTrace))))
              (VString "Recognizer successfully started") 500
              ltac:(vm_compute; reflexivity) ltac:(vm_compute; reflexivity)
              eq_refl eq_refl ltac:(vm_compute; reflexivity)
              ltac:(discriminate))
    as (r & w' & _ & A & Run & B & F & T).
  exists w'. split; [exact Run|]. split; [exact B|]. split; [|exact T].
  rewrite F, A. vm_compute. reflexivity.
Defined.

(** ** Events and the listener *)

(** X10.  Every event but onTimeout is sent only while a listener is
    subscribed: without one the result block, [stopInternal], [stop],
    [unload] and [start] send nothing, while the forced stop of the
    timeout still sends onTimeout.  The result block retains what it
    decodes all the same, so that a partial text first decoded without a
    listener is not reported when it is decoded again right after the
    listener has subscribed. *)
Theorem only_timeout_without_listener (w : World) :
  hasListener (vosk w) = false ->
  (forall result completed, emitted w (deliver result completed w) = []) /\
  (forall withoutEvents, emitted w (stopInternal withoutEvents w) = []) /\
  emitted w (stop w) = [] /\
  emitted w (unload w) = [] /\
  (forall rawOptions env, emitted w (fst (start rawOptions env w)) = []) /\
  emitted w (timeoutStopBlock w) = [(onTimeout, EmptyString)] /\
  (forall r p,
     partial r = Some p ->
     lastRecognizedResult (vosk (deliver (Some (resultJSON r)) false w))
       = Some r /\
     emitted (startObserving (deliver (Some (resultJSON r)) false w))
             (deliver (Some (resultJSON r)) false
                (startObserving (deliver (Some (resultJSON r)) false w)))
       = []).
Proof.
  intros L.
  assert (St : events (stop w) = events w).
  { rewrite events_stop, L, andb_false_r. apply app_nil_r. }
  split; [|split; [|split; [|split; [|split; [|split]]]]].
  - intros result completed.
    destruct (deliver_shape result completed w) as (es & kept & E & _ & N).
    apply emitted_app. rewrite E, (N L). reflexivity.
  - intros withoutEvents. apply emitted_same.
    rewrite events_stopInternal, L, andb_false_r. apply app_nil_r.
  - now apply emitted_same.
  - apply emitted_same. now rewrite unload_stop, events_on_vosk.
  - intros rawOptions env. apply emitted_same.
    destruct (start rawOptions env w) as [w' [v|code message]] eqn:E;
      cbn [fst].
    + now destruct (start_resolved _ _ _ _ _ E) as (_ & _ & _ & _ & Ev & _).
    + destruct (start_rejected _ _ _ _ _ _ E) as [->|[e ->]]; [reflexivity|].
      destruct (startCatch_spec e w) as (_ & _ & Ev & _).
      rewrite Ev, L. apply app_nil_r.
  - apply emitted_app.
    now destruct (frame_timeoutStopBlock w) as (_ & _ & E).
  - intros r p P.
    pose proof (vosk_deliver (resultJSON r) false w r eq_refl) as V.
    split; [now rewrite V|].
    apply emitted_app.
    rewrite (events_deliver (resultJSON r) false
               (startObserving (deliver (Some (resultJSON r)) false w))
               r eq_refl).
    unfold retainedPartial, startObserving.
    rewrite vosk_on_vosk, V, P.
    cbn [set_hasListener set_lastRecognizedResult hasListener
         lastRecognizedResult partial].
    rewrite P, String.eqb_refl. destruct (isEmpty p); reflexivity.
Qed.

Lemma only_timeout_without_listener_witness :
  let w := after [callLoadModel "model-en-us" (Some someModel);
                  callStart None quietSetup; permissionAnswer true true] in
  hasListener (vosk w) = false /\
  emitted w (deliver (Some (resultJSON (mkVoskResult (Some "hel"%string) None)))
                     false w) = [] /\
  emitted w (timeoutStopBlock w) = [(onTimeout, EmptyString)].
Proof.
  destruct (only_timeout_without_listener
              (after [callLoadModel "model-en-us" (Some someModel);
                      callStart None quietSetup; permissionAnswer true true])
              eq_refl) as (A & _ & _ & _ & _ & B & _).
  split; [reflexivity|]. split; [apply A | exact B].
Defined.
